(** * card-fraud-demo: the card store (db.js) and the request handlers
      (server.js), embedded shallowly.

    The JSON file behind db.js is the list of card records it holds
    ([db.cards]); every store function reads that list, changes one record and
    writes the list back, so a store function here maps the list before the
    call to the list after it.  A handler of server.js maps the list and the
    request to the list afterwards and the JSON response.

    JavaScript numbers are modelled by rationals with a NaN element, the
    result of an operation being rounded to a double by [num_double];
    the wall clock, [nanoid()] and the ipapi.co lookup are inputs of the
    handler that uses them.  Email delivery touches neither the store nor
    the response and is left out of [Server]; [Disk] and [App] further down
    have db.js on the file system and the handlers with their alerts. *)

From Stdlib Require Import QArith Qabs Qround Qpower Ascii String Lqa.
From stdpp Require Import base list strings.

Open Scope Z_scope.
Open Scope string_scope.

(** ** Numbers *)

(** A JavaScript number: NaN, or a finite value. *)
Inductive number :=
  | NaN
  | Num (q : Q).

(** [a - b], before it is rounded to a double. *)
Definition num_sub (a b : number) : number :=
  match a, b with
  | Num x, Num y => Num (x - y)
  | _, _ => NaN
  end.

(** [a / b], before it is rounded to a double; a zero divisor does not
    occur in this program (the only divisor is the constant 1000 * 60 * 60)
    and is given NaN. *)
Definition num_div (a b : number) : number :=
  match a, b with
  | Num x, Num y => if Qeq_bool y 0 then NaN else Num (x / y)
  | _, _ => NaN
  end.

(** [Math.abs(a)] *)
Definition num_abs (a : number) : number :=
  match a with
  | Num x => Num (Qabs x)
  | NaN => NaN
  end.

(** [a > q] and [a < q]: every comparison with NaN is false. *)
Definition num_gt (a : number) (q : Q) : bool :=
  match a with
  | Num x => match x ?= q with Gt => true | _ => false end
  | NaN => false
  end%Q.

Definition num_lt (a : number) (q : Q) : bool :=
  match a with
  | Num x => match x ?= q with Lt => true | _ => false end
  | NaN => false
  end%Q.

(** [Number(a.toFixed(2))]: the nearest multiple of 1/100, ties going away
    from zero; from 1e21 on, [toFixed] prints the number itself. *)
Definition toFixed2 (a : number) : number :=
  match a with
  | NaN => NaN
  | Num x =>
      if Qle_bool (1000000000000000000000 # 1) (Qabs x) then Num x
      else
        let n := Qfloor (Qabs x * (100 # 1) + (1 # 2)) in
        Num (if Qle_bool 0 x then n # 100 else (- n) # 100)
  end.

(** *** Rounding to a double

    A number of the program is a binary64 value: 53 significant bits, the
    unit in the last place no smaller than 2^-1074, ties to the even
    neighbour.  The numbers rounded here are differences of dates, which
    lie within 8.64e15 milliseconds of the epoch, and their quotients: none
    comes near the largest double, so rounding to infinity is left out. *)

Definition pow2 (e : Z) : Q := Qpower (2 # 1) e.

(** For [x > 0], the [e] with [2^e <= x < 2^(e+1)]. *)
Definition floor_log2 (x : Q) : Z :=
  let e0 := Z.log2 (Qnum x) - Z.log2 (Zpos (Qden x)) in
  if Qle_bool (pow2 e0) x then e0 else e0 - 1.

(** The nearest integer, the even one of two that are equally near. *)
Definition round_even (y : Q) : Z :=
  let f := Qfloor y in
  match (y - inject_Z f ?= 1 # 2)%Q with
  | Lt => f
  | Gt => f + 1
  | Eq => if Z.even f then f else f + 1
  end.

(** The double nearest to [a > 0]. *)
Definition round64 (a : Q) : Q :=
  let u := Z.max (floor_log2 a - 52) (-1074) in
  (inject_Z (round_even (a / pow2 u)) * pow2 u)%Q.

(** The double nearest to [x]. *)
Definition binary64 (x : Q) : Q :=
  if Qeq_bool x 0 then 0%Q
  else if Qle_bool 0 x then round64 x else (- round64 (- x))%Q.

(** The number an arithmetic operation of the program gives for the exact
    result [a]. *)
Definition num_double (a : number) : number :=
  match a with
  | NaN => NaN
  | Num x => Num (binary64 x)
  end.

(** ** Data model *)

(** A coordinate as the JSON body or the store has it: [None] is [null]. *)
Definition coord := option Q.

(** A timestamp is kept as the value [new Date(timestamp)] has. *)
Inductive Timestamp :=
  | Instant (ms : Z)     (* milliseconds since the epoch *)
  | InvalidDate.         (* a string that Date cannot parse *)

(** The time value of [new Date(t)] as a number. *)
Definition Date (t : Timestamp) : number :=
  match t with
  | Instant ms => Num (inject_Z ms)
  | InvalidDate => NaN
  end.

Inductive Status := active | frozen | blocked.

Inductive Risk := LOW | MEDIUM | HIGH | BLOCKED | FROZEN.

#[global] Instance Status_eq_dec : EqDecision Status.
Proof. solve_decision. Defined.

#[global] Instance Risk_eq_dec : EqDecision Risk.
Proof. solve_decision. Defined.

(** [{ lat, lon, timestamp }] *)
Record Location := {
  loc_lat : coord;
  loc_lon : coord;
  loc_timestamp : Timestamp
}.

(** A history entry.  A check writes [{ id, lat, lon, timestamp, risk,
    action: 'checked' }], an action writes [{ id, timestamp, action }]: the
    fields an action entry lacks are [None] here. *)
Record Event := {
  ev_id : string;
  ev_lat : option coord;
  ev_lon : option coord;
  ev_timestamp : Timestamp;
  ev_risk : option Risk;
  ev_action : string
}.

(** A card record of db.json. *)
Record Card := {
  cardNumber : string;
  lastSeen : option Location;
  status : Status;
  reported : bool;
  history : list Event
}.

(** [{ cardNumber, lastSeen: null, status: 'active', reported: false,
    history: [] }], the record every function makes for an unseen card. *)
Definition newCard (cn : string) : Card :=
  {| cardNumber := cn; lastSeen := None; status := active;
     reported := false; history := [] |}.

(** ** db.js *)

Module Db.

(** [db.cards.find(c => c.cardNumber === cardNumber)] *)
Definition getCard (cards : list Card) (cn : string) : option Card :=
  snd <$> list_find (λ c, cardNumber c = cn) cards.

(** [findIndex], then [push] when there is none and [db.cards[idx] = card]
    otherwise. *)
Definition saveCard (cards : list Card) (card : Card) : list Card :=
  match list_find (λ c, cardNumber c = cardNumber card) cards with
  | None => cards ++ [card]
  | Some (idx, _) => <[idx := card]> cards
  end.

(** [card.history.unshift(entry)], then the cut to 200 entries. *)
Definition pushHistory (entry : Event) (h : list Event) : list Event :=
  let h := entry :: h in
  if decide (200 < length h)%nat then take 200 h else h.

Definition addHistory (cards : list Card) (cn : string) (entry : Event)
  : list Card :=
  let card := default (newCard cn) (getCard cards cn) in
  let card :=
    {| cardNumber := cardNumber card; lastSeen := lastSeen card;
       status := status card; reported := reported card;
       history := pushHistory entry (history card) |} in
  saveCard cards card.

Definition updateLastSeen (cards : list Card) (cn : string) (ls : Location)
  : list Card :=
  let card := default (newCard cn) (getCard cards cn) in
  let card :=
    {| cardNumber := cardNumber card; lastSeen := Some ls;
       status := status card; reported := reported card;
       history := history card |} in
  saveCard cards card.

Definition getAllCards (cards : list Card) : list Card := cards.

End Db.

(** ** server.js *)

Module Server.

(** [\s] on the code units below 256: tab, line feed, vertical tab, form
    feed, carriage return, space and the no-break space. *)
Definition is_space (a : ascii) : bool :=
  let n := nat_of_ascii a in
  ((9 <=? n) && (n <=? 13) || (n =? 32) || (n =? 160))%nat.

(** [String(pan).replace(/\s+/g, '')] *)
Fixpoint strip_spaces (s : string) : string :=
  match s with
  | EmptyString => EmptyString
  | String a s' =>
      if is_space a then strip_spaces s' else String a (strip_spaces s')
  end.

Definition mask (pan : string) : string :=
  if decide (pan = "") then ""
  else
    let s := strip_spaces pan in
    if (String.length s <=? 4)%nat then "****"
    else "**** **** **** " ++ substring (String.length s - 4) 4 s.

(** The [details] object of a check: a field not assigned is [None]. *)
Record Details := {
  distance_km : option number;
  hours_since_last : option number;
  note : option string
}.

(** The [card] object of a check response. *)
Record CardView := {
  view_cardNumber : string;
  view_status : Status;
  view_reported : bool;
  view_lastSeen : option Location
}.

(** The [card] object of an action response. *)
Record CardBrief := {
  brief_cardNumber : string;
  brief_status : Status;
  brief_reported : bool
}.

Inductive Response :=
  | Error (code : nat) (error : string)
  | CheckOk (card : CardView) (risk : Risk) (details : Details)
  | ActionOk (message : string) (card : CardBrief).

(** The body of POST /api/check; an absent or falsy field is [None] (the
    empty string for [cardNumber]). *)
Record CheckReq := {
  q_cardNumber : string;
  q_lat : coord;
  q_lon : coord;
  q_ts : option Timestamp
}.

(** [r.data] of the ipapi.co answer. *)
Record IpData := {
  latitude : coord;
  longitude : coord
}.

(** What a check takes from outside the request: the wall clock
    ([new Date().toISOString()]), the identifier [nanoid()] returns, and
    the answer of ipapi.co ([None] when the call fails or has no data). *)
Record CheckIO := {
  io_wall : Z;
  io_id : string;
  io_ipapi : option IpData
}.

(** Truthiness of a coordinate: [null] and [0] are falsy. *)
Definition truthy (c : coord) : bool :=
  match c with
  | Some q => negb (Qeq_bool q 0)
  | None => false
  end.

(** The coordinates a check works with: those of the body, or both of
    ipapi.co's when one of the body's is missing and ipapi.co has both. *)
Definition resolve_coords (lat lon : coord) (ipapi : option IpData)
  : coord * coord :=
  match lat, lon with
  | Some _, Some _ => (lat, lon)
  | _, _ =>
      match ipapi with
      | Some d =>
          if truthy (latitude d) && truthy (longitude d)
          then (latitude d, longitude d)
          else (lat, lon)
      | None => (lat, lon)
      end
  end.

(** [if (card.status === 'blocked') risk = 'BLOCKED';
     if (card.status === 'frozen') risk = 'FROZEN';] *)
Definition status_overrides (st : Status) (risk : Risk) : Risk :=
  let risk := if decide (st = blocked) then BLOCKED else risk in
  if decide (st = frozen) then FROZEN else risk.

(** The hours between two timestamps as a rational: the absolute value of
    the difference of the dates over 1000 * 60 * 60, nothing rounded. *)
Definition diffHours (now lastTs : Timestamp) : number :=
  num_abs (num_div (num_sub (Date now) (Date lastTs))
                   (Num (inject_Z (1000 * 60 * 60)))).

(** [Math.abs((new Date(now) - lastTs) / (1000 * 60 * 60))] as the program
    computes it: the difference and the quotient are doubles. *)
Definition diffHours64 (now lastTs : Timestamp) : number :=
  num_abs
    (num_double
       (num_div (num_double (num_sub (Date now) (Date lastTs)))
                (Num (inject_Z (1000 * 60 * 60))))).

Definition no_previous_location : string :=
  "No previous location for this card (first time or missing).".

Section WithUtils.

(** [utils.haversineDistance(lat1, lon1, lat2, lon2)], in kilometres. *)
Variable haversineDistance : coord -> coord -> coord -> coord -> number.

(** The "compute risk" block of the check handler. *)
Definition compute_risk (card : Card) (curLat curLon : coord)
    (now : Timestamp) : Risk * Details :=
  match lastSeen card, curLat, curLon with
  | Some ls, Some _, Some _ =>
      let distKm :=
        haversineDistance (loc_lat ls) (loc_lon ls) curLat curLon in
      let diffHours := diffHours64 now (loc_timestamp ls) in
      let details :=
        {| distance_km := Some (toFixed2 distKm);
           hours_since_last := Some (toFixed2 diffHours);
           note := None |} in
      if num_gt distKm (500 # 1) && num_lt diffHours (6 # 1)
      then (HIGH, details)
      else if num_gt distKm (100 # 1) && num_lt diffHours (24 # 1)
      then (MEDIUM, details)
      else (LOW, details)
  | _, _, _ =>
      (LOW, {| distance_km := None; hours_since_last := None;
               note := Some no_previous_location |})
  end.

(** POST /api/check *)
Definition check (cards : list Card) (req : CheckReq) (io : CheckIO)
  : list Card * Response :=
  let cn := q_cardNumber req in
  if decide (cn = "") then (cards, Error 400 "cardNumber is required")
  else
    let now := default (Instant (io_wall io)) (q_ts req) in
    let '(curLat, curLon) :=
      resolve_coords (q_lat req) (q_lon req) (io_ipapi io) in
    let card := default (newCard cn) (Db.getCard cards cn) in
    let '(risk, details) := compute_risk card curLat curLon now in
    let risk := status_overrides (status card) risk in
    let entry :=
      {| ev_id := io_id io; ev_lat := Some curLat; ev_lon := Some curLon;
         ev_timestamp := now; ev_risk := Some risk;
         ev_action := "checked" |} in
    let cards := Db.addHistory cards cn entry in
    let cards :=
      Db.updateLastSeen cards cn
        {| loc_lat := curLat; loc_lon := curLon; loc_timestamp := now |} in
    match Db.getCard cards cn with
    | Some saved =>
        (cards,
         CheckOk {| view_cardNumber := mask cn;
                    view_status := status saved;
                    view_reported := reported saved;
                    view_lastSeen := lastSeen saved |}
                 risk details)
    | None => (cards, Error 500 "server error")
    end.

End WithUtils.

(** The [switch] of the action handler: the card after the action and the
    message, or [None] in the default case. *)
Definition apply_action (card : Card) (action : string)
  : option (Card * string) :=
  if decide (action = "continue") then
    Some (card, "Transaction allowed (no action taken).")
  else if decide (action = "report") then
    Some ({| cardNumber := cardNumber card; lastSeen := lastSeen card;
             status := status card; reported := true;
             history := history card |}, "Card reported.")
  else if decide (action = "freeze") then
    Some ({| cardNumber := cardNumber card; lastSeen := lastSeen card;
             status := frozen; reported := reported card;
             history := history card |}, "Card frozen.")
  else if decide (action = "block") then
    Some ({| cardNumber := cardNumber card; lastSeen := lastSeen card;
             status := blocked; reported := reported card;
             history := history card |}, "Card blocked.")
  else None.

(** What an action takes from outside the request: the identifier
    [nanoid()] returns and the wall clock. *)
Record ActionIO := {
  aio_id : string;
  aio_wall : Z
}.

(** POST /api/action; a missing [cardNumber] or [action] is the empty
    string. *)
Definition action (cards : list Card) (cn act : string) (io : ActionIO)
  : list Card * Response :=
  if bool_decide (cn = "") || bool_decide (act = "")
  then (cards, Error 400 "cardNumber and action required")
  else
    let card := default (newCard cn) (Db.getCard cards cn) in
    match apply_action card act with
    | None => (cards, Error 400 "unknown action")
    | Some (card, message) =>
        let cards := Db.saveCard cards card in
        let cards :=
          Db.addHistory cards cn
            {| ev_id := aio_id io; ev_lat := None; ev_lon := None;
               ev_timestamp := Instant (aio_wall io); ev_risk := None;
               ev_action := act |} in
        (cards,
         ActionOk message
           {| brief_cardNumber := mask cn; brief_status := status card;
              brief_reported := reported card |})
    end.

(** GET /api/cards *)
Definition cards_listing (cards : list Card) : list Card :=
  Db.getAllCards cards.

End Server.

(** A distance to run the handlers on where a statement needs a concrete one
    (utils.js is outside this development): 111.195 km per degree along
    each axis, [null] read as 0 the way JavaScript arithmetic reads it. *)
Definition grid_distance (lat1 lon1 lat2 lon2 : coord) : number :=
  let v := default 0%Q in
  Num ((111195 # 1000) * (Qabs (v lat2 - v lat1) + Qabs (v lon2 - v lon1))).

(** The history the store holds for a card number: that of the first record
    with the number, empty when there is none. *)
Definition history_of (cards : list Card) (cn : string) : list Event :=
  from_option history [] (Db.getCard cards cn).

(** Every record's history has at most 200 entries. *)
Definition capped (cards : list Card) : Prop :=
  Forall (λ c, (length (history c) <= 200)%nat) cards.

(** A run of [addHistory] calls, each with its card number. *)
Definition addHistories (cards : list Card) (es : list (string * Event))
  : list Card :=
  foldl (λ s ce, Db.addHistory s ce.1 ce.2) cards es.

(** [a] is a number above [q]; [a] is a number below [q]. *)
Definition exceeds (a : number) (q : Q) : Prop :=
  ∃ x, a = Num x ∧ (q < x)%Q.

Definition below (a : number) (q : Q) : Prop :=
  ∃ x, a = Num x ∧ (x < q)%Q.

(** The hours between two instants given in milliseconds. *)
Definition hours_between (t1 t2 : Z) : Q := Z.abs (t1 - t2) # 3600000.

(** The masked forms of a card number: nothing, four stars, or three groups
    of stars and four characters. *)
Definition masked (s : string) : Prop :=
  s = "" ∨ s = "****" ∨
  ∃ t, String.length t = 4%nat ∧ s = "**** **** **** " ++ t.

(** The action identifiers the action handler knows. *)
Definition recognized (act : string) : Prop :=
  act = "continue" ∨ act = "report" ∨ act = "freeze" ∨ act = "block".

(** The card a handler or a store function works on: the stored record, or
    a new one for an unseen number. *)
Definition prior (cards : list Card) (cn : string) : Card :=
  default (newCard cn) (Db.getCard cards cn).

(** The time of a check: [ts || new Date().toISOString()]. *)
Definition check_now (req : Server.CheckReq) (io : Server.CheckIO)
  : Timestamp :=
  default (Instant (Server.io_wall io)) (Server.q_ts req).

(** The coordinates of a check, after the ipapi.co fallback. *)
Definition check_coords (req : Server.CheckReq) (io : Server.CheckIO)
  : coord * coord :=
  Server.resolve_coords (Server.q_lat req) (Server.q_lon req)
    (Server.io_ipapi io).

(** The location a check stores as [lastSeen]. *)
Definition check_location (req : Server.CheckReq) (io : Server.CheckIO)
  : Location :=
  {| loc_lat := (check_coords req io).1; loc_lon := (check_coords req io).2;
     loc_timestamp := check_now req io |}.

(** The history entry of a check with the given risk. *)
Definition check_entry (req : Server.CheckReq) (io : Server.CheckIO)
    (risk : Risk) : Event :=
  {| ev_id := Server.io_id io;
     ev_lat := Some (check_coords req io).1;
     ev_lon := Some (check_coords req io).2;
     ev_timestamp := check_now req io;
     ev_risk := Some risk;
     ev_action := "checked" |}.

(** The history entry of an action. *)
Definition action_entry (act : string) (io : Server.ActionIO) : Event :=
  {| ev_id := Server.aio_id io; ev_lat := None; ev_lon := None;
     ev_timestamp := Instant (Server.aio_wall io); ev_risk := None;
     ev_action := act |}.

(** A request to the server, with what its handler takes from outside. *)
Inductive Request :=
  | CheckRequest (req : Server.CheckReq) (io : Server.CheckIO)
  | ActionRequest (cn act : string) (io : Server.ActionIO).

(** The store after a run of requests. *)
Definition serve (dist : coord → coord → coord → coord → number)
    (cards : list Card) (rs : list Request) : list Card :=
  foldl (λ s r,
           match r with
           | CheckRequest req io => (Server.check dist s req io).1
           | ActionRequest cn act io => (Server.action s cn act io).1
           end) cards rs.

(** ** Inputs to run the handlers on *)

Module Samples.

Definition pan : string := "4111 1111 1111 1234".

Definition io : Server.CheckIO :=
  {| Server.io_wall := 0; Server.io_id := "c1"; Server.io_ipapi := None |}.

Definition aio : Server.ActionIO :=
  {| Server.aio_id := "a1"; Server.aio_wall := 0 |}.

(** A check at latitude 0, longitude 0, at time 0. *)
Definition at_origin : Server.CheckReq :=
  {| Server.q_cardNumber := pan; Server.q_lat := Some (0 # 1)%Q;
     Server.q_lon := Some (0 # 1)%Q; Server.q_ts := Some (Instant 0) |}.

(** A check ten degrees to the north, one hour later. *)
Definition north_1h : Server.CheckReq :=
  {| Server.q_cardNumber := pan; Server.q_lat := Some (10 # 1)%Q;
     Server.q_lon := Some (0 # 1)%Q;
     Server.q_ts := Some (Instant 3600000) |}.

(** A check at the same place, 54 seconds after the first. *)
Definition after_54s : Server.CheckReq :=
  {| Server.q_cardNumber := pan; Server.q_lat := Some (0 # 1)%Q;
     Server.q_lon := Some (0 # 1)%Q; Server.q_ts := Some (Instant 54000) |}.

Definition origin : Location :=
  {| loc_lat := Some (0 # 1)%Q; loc_lon := Some (0 # 1)%Q;
     loc_timestamp := Instant 0 |}.

(** The store after the first check of the card, on an empty store. *)
Definition seen : list Card :=
  (Server.check grid_distance [] at_origin io).1.

(** The store after that check and the second, an hour later. *)
Definition seen_later : list Card :=
  (Server.check grid_distance seen north_1h io).1.

(** The card blocked after its first check, and blocked before any. *)
Definition seen_blocked : list Card :=
  (Server.action seen pan "block" aio).1.

Definition unseen_blocked : list Card :=
  (Server.action [] pan "block" aio).1.

(** [n] history entries for the card, told apart by their time. *)
Definition events (n : nat) : list (string * Event) :=
  (λ i, (pan, action_entry "continue"
                {| Server.aio_id := "e";
                   Server.aio_wall := Z.of_nat i |})) <$> seq 0 n.

Definition newest : Event :=
  action_entry "report" {| Server.aio_id := "n"; Server.aio_wall := 200 |}.

End Samples.

(** ** db.js on the file system, and the handlers with their effects

    [Db] and [Server] above work on the collection itself.  Below, db.js
    works on the directory and the file it keeps the collection in, a call
    may throw, and a handler also hands alerts to [sendAlertEmail]. *)

(** A computation on a state [S] that returns an [A] or throws; the state
    it leaves is kept either way. *)
Definition M (S A : Type) : Type := S → S * option A.

#[global] Instance M_ret {S : Type} : MRet (M S) := λ A a s, (s, Some a).

#[global] Instance M_bind {S : Type} : MBind (M S) :=
  λ A B k m s,
    match m s with
    | (s', Some a) => k a s'
    | (s', None) => (s', None)
    end.

Definition throw {S A : Type} : M S A := λ s, (s, None).

Module Disk.

(** What [JSON.parse] makes of the text of db.json: an object with the
    array [cards], or a syntax error. *)
Inductive Content :=
  | Collection (cards : list Card)
  | Malformed.

(** The data directory is missing, or it is there without db.json, or
    db.json is there. *)
Inductive Fs :=
  | NoDir
  | NoFile
  | File (c : Content).

Definition ensure (fs : Fs) : Fs :=
  let fs := match fs with NoDir => NoFile | _ => fs end in
  match fs with NoFile => File (Collection []) | _ => fs end.

Definition readDB : M Fs (list Card) :=
  λ fs,
    let fs := ensure fs in
    match fs with
    | File (Collection cards) => (fs, Some cards)
    | _ => (fs, None)
    end.

(** [fs.writeFileSync] needs the directory. *)
Definition writeDB (cards : list Card) : M Fs unit :=
  λ fs,
    match fs with
    | NoDir => (fs, None)
    | _ => (File (Collection cards), Some tt)
    end.

Definition getCard (cn : string) : M Fs (option Card) :=
  (db ← readDB;
   mret (snd <$> list_find (λ c, cardNumber c = cn) db)).

Definition saveCard (card : Card) : M Fs unit :=
  (db ← readDB;
   writeDB
     match list_find (λ c, cardNumber c = cardNumber card) db with
     | None => db ++ [card]
     | Some (idx, _) => <[idx := card]> db
     end).

Definition addHistory (cn : string) (entry : Event) : M Fs unit :=
  (found ← getCard cn;
   let card := default (newCard cn) found in
   let h := entry :: history card in
   let h := if decide (200 < length h)%nat then take 200 h else h in
   saveCard {| cardNumber := cardNumber card; lastSeen := lastSeen card;
               status := status card; reported := reported card;
               history := h |}).

Definition updateLastSeen (cn : string) (ls : Location) : M Fs unit :=
  (found ← getCard cn;
   let card := default (newCard cn) found in
   saveCard {| cardNumber := cardNumber card; lastSeen := Some ls;
               status := status card; reported := reported card;
               history := history card |}).

Definition getAllCards : M Fs (list Card) := readDB.

End Disk.

Module App.

(** A piece of the text of an alert: literal text, a timestamp as the
    template prints it, the wall clock as [toISOString()] prints it, or
    [JSON.stringify(details)]. *)
Inductive Piece :=
  | Lit (s : string)
  | ShowTime (t : Timestamp)
  | ShowWall (ms : Z)
  | ShowDetails (d : Server.Details).

(** The subject and the text a handler passes to [sendAlertEmail]. *)
Record Alert := {
  subject : string;
  text : list Piece
}.

(** The file system and the calls of [sendAlertEmail] so far, oldest
    first. *)
Record World := {
  disk : Disk.Fs;
  outbox : list Alert
}.

(** A call into db.js. *)
Definition db {A : Type} (m : M Disk.Fs A) : M World A :=
  λ w, let '(fs, r) := m (disk w) in
       ({| disk := fs; outbox := outbox w |}, r).

(** The call [sendAlertEmail(process.env.ADMIN_EMAIL, subject, text)]. *)
Definition alert (a : Alert) : M World unit :=
  λ w, ({| disk := disk w; outbox := outbox w ++ [a] |}, Some tt).

(** [try { ... } catch (err) { res.status(500).json({ error: 'server error'
    }) }] *)
Definition try_catch (m : M World Server.Response)
  : World → World * Server.Response :=
  λ w, match m w with
       | (w', Some r) => (w', r)
       | (w', None) => (w', Server.Error 500 "server error")
       end.

Definition high_alert (cn : string) (now : Timestamp)
    (details : Server.Details) : Alert :=
  {| subject := "ALERT: HIGH risk for card " ++ Server.mask cn;
     text := [Lit "Detected HIGH risk for card "; Lit (Server.mask cn);
              Lit " at "; ShowTime now; Lit ". Details: ";
              ShowDetails details] |}.

(** [wall] is the clock when the text of the alert is made. *)
Definition action_alert (cn act : string) (wall : Z) : Alert :=
  {| subject := "Action " ++ act ++ " performed for card " ++ Server.mask cn;
     text := [Lit "Action "; Lit act; Lit " performed on "; ShowWall wall;
              Lit " for card "; Lit (Server.mask cn)] |}.

Section WithUtils.

(** [utils.haversineDistance(lat1, lon1, lat2, lon2)], in kilometres. *)
Variable haversineDistance : coord -> coord -> coord -> coord -> number.

(** POST /api/check *)
Definition check (req : Server.CheckReq) (io : Server.CheckIO)
  : World → World * Server.Response :=
  try_catch
    (let cn := Server.q_cardNumber req in
     if decide (cn = "")
     then mret (Server.Error 400 "cardNumber is required")
     else
       let now := default (Instant (Server.io_wall io)) (Server.q_ts req) in
       let '(curLat, curLon) :=
         Server.resolve_coords (Server.q_lat req) (Server.q_lon req)
           (Server.io_ipapi io) in
       found ← db (Disk.getCard cn);
       let card := default (newCard cn) found in
       let '(risk, details) :=
         Server.compute_risk haversineDistance card curLat curLon now in
       let risk := Server.status_overrides (status card) risk in
       let entry :=
         {| ev_id := Server.io_id io; ev_lat := Some curLat;
            ev_lon := Some curLon; ev_timestamp := now;
            ev_risk := Some risk; ev_action := "checked" |} in
       _ ← db (Disk.addHistory cn entry);
       _ ← db (Disk.updateLastSeen cn
                  {| loc_lat := curLat; loc_lon := curLon;
                     loc_timestamp := now |});
       _ ← (if decide (risk = HIGH) then alert (high_alert cn now details)
             else mret tt);
       saved ← db (Disk.getCard cn);
       match saved with
       | Some saved =>
           mret (Server.CheckOk
                  {| Server.view_cardNumber := Server.mask cn;
                     Server.view_status := status saved;
                     Server.view_reported := reported saved;
                     Server.view_lastSeen := lastSeen saved |}
                  risk details)
       | None => throw
       end).

End WithUtils.

(** POST /api/action; [mail_wall] is the clock when the text of the alert
    is made, after the history entry. *)
Definition action (cn act : string) (io : Server.ActionIO) (mail_wall : Z)
  : World → World * Server.Response :=
  try_catch
    (if bool_decide (cn = "") || bool_decide (act = "")
     then mret (Server.Error 400 "cardNumber and action required")
     else
       found ← db (Disk.getCard cn);
       let card := default (newCard cn) found in
       match Server.apply_action card act with
       | None => mret (Server.Error 400 "unknown action")
       | Some (card, message) =>
           _ ← db (Disk.saveCard card);
           _ ← db (Disk.addHistory cn
                      {| ev_id := Server.aio_id io; ev_lat := None;
                         ev_lon := None;
                         ev_timestamp := Instant (Server.aio_wall io);
                         ev_risk := None; ev_action := act |});
           _ ← alert (action_alert cn act mail_wall);
           mret (Server.ActionOk message
                  {| Server.brief_cardNumber := Server.mask cn;
                     Server.brief_status := status card;
                     Server.brief_reported := reported card |})
       end).

(** GET /api/cards: the handler has no [try]; a throw goes to the
    framework. *)
Definition cards : M World (list Card) := db Disk.getAllCards.

(** The settings [sendAlertEmail] reads; an unset variable is the empty
    string, [SMTP_PASS] apart, and [SMTP_PORT] is kept as
    [Number(process.env.SMTP_PORT)]. *)
Record Env := {
  ADMIN_EMAIL : string;
  SMTP_HOST : string;
  SMTP_USER : string;
  SMTP_PASS : option string;
  SMTP_PORT : number
}.

(** The argument of [nodemailer.createTransport]. *)
Record Transport := {
  host : string;
  port : number;
  secure : bool;
  auth_user : string;
  auth_pass : option string
}.

(** The argument of [transporter.sendMail]. *)
Record Message := {
  msg_from : string;
  msg_to : string;
  msg_subject : string;
  msg_text : list Piece
}.

(** What a call of [sendAlertEmail] does: one of its two console notes, or
    a message given to a transport, which goes out ([true]) or fails and is
    logged ([false]). *)
Inductive Outcome :=
  | LoggedNoAdmin (subject : string) (text : list Piece)
  | LoggedNoSmtp (to subject : string) (text : list Piece)
  | Mailed (t : Transport) (m : Message) (sent : bool).

(** [a || q] on numbers: NaN and 0 are falsy. *)
Definition num_or (a : number) (q : Q) : number :=
  match a with
  | NaN => Num q
  | Num x => if Qeq_bool x 0 then Num q else Num x
  end.

(** [smtp_ok] tells whether nodemailer gets the message out. *)
Definition sendAlertEmail (env : Env) (to subject : string)
    (text : list Piece) (smtp_ok : bool) : Outcome :=
  if decide (to = "") then LoggedNoAdmin subject text
  else if bool_decide (SMTP_HOST env = "") || bool_decide (SMTP_USER env = "")
  then LoggedNoSmtp to subject text
  else
    Mailed {| host := SMTP_HOST env;
              port := num_or (SMTP_PORT env) (587 # 1);
              secure := false;
              auth_user := SMTP_USER env;
              auth_pass := SMTP_PASS env |}
           {| msg_from := SMTP_USER env; msg_to := to;
              msg_subject := subject; msg_text := text |}
           smtp_ok.

End App.

(** A world whose db.json holds the given collection. *)
Definition world_of (cards : list Card) (sent : list App.Alert) : App.World :=
  {| App.disk := Disk.File (Disk.Collection cards); App.outbox := sent |}.

(** The collection db.js works on from a file system: that of db.json, the
    empty one when db.json is yet to be made, none when db.json does not
    parse. *)
Definition collection (fs : Disk.Fs) : option (list Card) :=
  match fs with
  | Disk.File (Disk.Collection cards) => Some cards
  | Disk.File Disk.Malformed => None
  | _ => Some []
  end.

(** The card numbers of a collection, in order. *)
Definition cardNumbers (cards : list Card) : list string :=
  cardNumber <$> cards.

(** The alerts a check hands over, given its response. *)
Definition alerts_of_check (req : Server.CheckReq) (io : Server.CheckIO)
    (r : Server.Response) : list App.Alert :=
  match r with
  | Server.CheckOk _ HIGH details =>
      [App.high_alert (Server.q_cardNumber req) (check_now req io) details]
  | _ => []
  end.

(** The alerts an action hands over, given its response. *)
Definition alerts_of_action (cn act : string) (mail_wall : Z)
    (r : Server.Response) : list App.Alert :=
  match r with
  | Server.ActionOk _ _ => [App.action_alert cn act mail_wall]
  | _ => []
  end.

(** The entries a run of [addHistory] calls has for a card number, in the
    order of the calls. *)
Definition entries_for (cn : string) (es : list (string * Event))
  : list Event :=
  snd <$> filter (λ ce, ce.1 = cn) es.

(** * Facts about db.js *)

Module DbFacts.
Import Db.

Lemma getCard_nil cn : getCard [] cn = None.
Proof. reflexivity. Qed.

Lemma getCard_cons c cards cn :
  getCard (c :: cards) cn =
  if decide (cardNumber c = cn) then Some c else getCard cards cn.
Proof.
  unfold getCard. cbn. case_decide; [done|].
  by destruct (list_find _ cards) as [[i x]|].
Qed.

Lemma saveCard_nil card : saveCard [] card = [card].
Proof. reflexivity. Qed.

Lemma saveCard_cons c cards card :
  saveCard (c :: cards) card =
  if decide (cardNumber c = cardNumber card) then card :: cards
  else c :: saveCard cards card.
Proof.
  unfold saveCard. cbn. case_decide; [done|].
  by destruct (list_find _ cards) as [[i x]|].
Qed.

(** The record found carries the number asked for. *)
Lemma getCard_cardNumber cards cn c :
  getCard cards cn = Some c → cardNumber c = cn.
Proof.
  induction cards as [|d cards IH]; [done|].
  rewrite getCard_cons. case_decide; naive_solver.
Qed.

Lemma getCard_saveCard cards card :
  getCard (saveCard cards card) (cardNumber card) = Some card.
Proof.
  induction cards as [|d cards IH].
  - rewrite saveCard_nil, getCard_cons. by rewrite decide_True.
  - rewrite saveCard_cons. case_decide.
    + rewrite getCard_cons. by rewrite decide_True.
    + rewrite getCard_cons. by rewrite decide_False.
Qed.

Lemma getCard_saveCard_ne cards card cn :
  cn ≠ cardNumber card →
  getCard (saveCard cards card) cn = getCard cards cn.
Proof.
  intros Hne. induction cards as [|d cards IH].
  - rewrite saveCard_nil, getCard_cons. by rewrite decide_False.
  - rewrite saveCard_cons. case_decide as Hd.
    + rewrite !getCard_cons. rewrite !decide_False; congruence.
    + rewrite !getCard_cons. by rewrite IH.
Qed.

(** [saveCard] on a number the store has overwrites the first record with
    that number, in place. *)
Lemma saveCard_existing cards card c :
  getCard cards (cardNumber card) = Some c →
  ∃ i, cards !! i = Some c ∧ saveCard cards card = <[i := card]> cards.
Proof.
  induction cards as [|d cards IH]; [done|].
  rewrite getCard_cons, saveCard_cons. case_decide.
  - intros [= ->]. by exists 0%nat.
  - intros [i [Hi ->]]%IH. by exists (S i).
Qed.

Lemma saveCard_Forall (P : Card → Prop) cards card :
  Forall P cards → P card → Forall P (saveCard cards card).
Proof.
  intros Hall Hc. induction Hall as [|d cards Hd Hall IH].
  - by constructor.
  - rewrite saveCard_cons. case_decide; by constructor.
Qed.

Lemma getCard_Forall (P : Card → Prop) cards cn c :
  Forall P cards → getCard cards cn = Some c → P c.
Proof.
  intros Hall. induction Hall as [|d cards Hd Hall IH]; [done|].
  rewrite getCard_cons. case_decide; naive_solver.
Qed.

(** The record a store function works on carries the number asked for. *)
Lemma cardNumber_default cards cn :
  cardNumber (default (newCard cn) (getCard cards cn)) = cn.
Proof.
  destruct (getCard cards cn) as [c|] eqn:Hc; [|done].
  by apply getCard_cardNumber in Hc.
Qed.

(** [unshift] and the cut, as one expression. *)
Lemma pushHistory_take entry h : pushHistory entry h = take 200 (entry :: h).
Proof.
  unfold pushHistory. case_decide; [done|].
  symmetry. apply take_ge. lia.
Qed.

Lemma pushHistory_length entry h : (length (pushHistory entry h) <= 200)%nat.
Proof. rewrite pushHistory_take, length_take. lia. Qed.

Lemma getCard_addHistory cards cn entry :
  getCard (addHistory cards cn entry) cn =
  Some {| cardNumber := cn;
          lastSeen := lastSeen (default (newCard cn) (getCard cards cn));
          status := status (default (newCard cn) (getCard cards cn));
          reported := reported (default (newCard cn) (getCard cards cn));
          history :=
            pushHistory entry
              (history (default (newCard cn) (getCard cards cn))) |}.
Proof.
  unfold addHistory. rewrite cardNumber_default.
  set (card := {| cardNumber := cn |}).
  apply (getCard_saveCard cards card).
Qed.

Lemma getCard_addHistory_ne cards cn entry cn' :
  cn' ≠ cn → getCard (addHistory cards cn entry) cn' = getCard cards cn'.
Proof.
  intros Hne. unfold addHistory. apply getCard_saveCard_ne.
  cbn. by rewrite cardNumber_default.
Qed.

Lemma getCard_updateLastSeen cards cn ls :
  getCard (updateLastSeen cards cn ls) cn =
  Some {| cardNumber := cn;
          lastSeen := Some ls;
          status := status (default (newCard cn) (getCard cards cn));
          reported := reported (default (newCard cn) (getCard cards cn));
          history := history (default (newCard cn) (getCard cards cn)) |}.
Proof.
  unfold updateLastSeen. rewrite cardNumber_default.
  set (card := {| cardNumber := cn |}).
  apply (getCard_saveCard cards card).
Qed.

Lemma getCard_updateLastSeen_ne cards cn ls cn' :
  cn' ≠ cn → getCard (updateLastSeen cards cn ls) cn' = getCard cards cn'.
Proof.
  intros Hne. unfold updateLastSeen. apply getCard_saveCard_ne.
  cbn. by rewrite cardNumber_default.
Qed.

Lemma addHistory_capped cards cn entry :
  capped cards → capped (addHistory cards cn entry).
Proof.
  intros Hc. unfold addHistory. apply saveCard_Forall; [done|].
  cbn. apply pushHistory_length.
Qed.

Lemma default_capped cards cn :
  capped cards →
  (length (history (default (newCard cn) (getCard cards cn))) <= 200)%nat.
Proof.
  intros Hc. destruct (getCard cards cn) as [c|] eqn:Hg; cbn; [|lia].
  by apply (getCard_Forall _ _ _ _ Hc Hg).
Qed.

Lemma updateLastSeen_capped cards cn ls :
  capped cards → capped (updateLastSeen cards cn ls).
Proof.
  intros Hc. unfold updateLastSeen. apply saveCard_Forall; [done|].
  cbn. by apply default_capped.
Qed.

Lemma addHistories_capped es : ∀ cards,
  capped cards → capped (addHistories cards es).
Proof.
  induction es as [|[cn e] es IH]; intros cards Hc; [done|].
  cbn. apply IH. by apply addHistory_capped.
Qed.

End DbFacts.

(** * Facts about numbers and masks *)

Lemma num_gt_exceeds a q : num_gt a q = true ↔ exceeds a q.
Proof.
  unfold exceeds, num_gt. destruct a as [|x].
  - split; [done|]. by intros (x & ? & _).
  - split.
    + intros H. exists x. split; [done|]. apply Qgt_alt.
      by destruct (Qcompare x q).
    + intros (y & [= <-] & Hlt). apply Qgt_alt in Hlt.
      unfold Qcompare in *. by rewrite Hlt.
Qed.

Lemma num_lt_below a q : num_lt a q = true ↔ below a q.
Proof.
  unfold below, num_lt. destruct a as [|x].
  - split; [done|]. by intros (x & ? & _).
  - split.
    + intros H. exists x. split; [done|]. apply Qlt_alt.
      by destruct (Qcompare x q).
    + intros (y & [= <-] & Hlt). apply Qlt_alt in Hlt.
      unfold Qcompare in *. by rewrite Hlt.
Qed.

(** Between two valid dates [diffHours] is the absolute difference, in
    hours. *)
Lemma diffHours_instants t1 t2 :
  ∃ q, Server.diffHours (Instant t1) (Instant t2) = Num q ∧
       (q == hours_between t1 t2)%Q.
Proof.
  eexists. split; [reflexivity|].
  unfold hours_between, Qdiv. rewrite Qabs_Qmult.
  rewrite (Qmake_Qdiv (Z.abs (t1 - t2)) 3600000). unfold Qdiv.
  apply Qmult_comp; [|reflexivity].
  unfold Qminus. rewrite <- inject_Z_opp, <- inject_Z_plus.
  reflexivity.
Qed.

Lemma substring_all s : substring 0 (String.length s) s = s.
Proof. induction s as [|c s IH]; cbn; [done|]. by rewrite IH. Qed.

(** The last [length s - k] characters of [s], as [slice] takes them. *)
Lemma substring_suffix s : ∀ k, (k <= String.length s)%nat →
  ∃ pre, s = pre ++ substring k (String.length s - k) s ∧
         String.length (substring k (String.length s - k) s)
         = (String.length s - k)%nat.
Proof.
  induction s as [|c s IH]; intros k Hk.
  - exists "". cbn in Hk. by replace k with 0%nat by lia.
  - destruct k as [|k].
    + exists "". rewrite Nat.sub_0_r, substring_all. done.
    + cbn in Hk. destruct (IH k) as (pre & Hs & Hlen); [lia|].
      exists (String c pre).
      change (String.length (String c s) - S k)%nat
        with (String.length s - k)%nat.
      change (substring (S k) (String.length s - k) (String c s))
        with (substring k (String.length s - k) s).
      split; [|done]. rewrite Hs at 1. reflexivity.
Qed.

(** What [mask] shows of a card number: nothing of a number of at most four
    characters, and the last four characters of a longer one. *)
Lemma mask_shape pan :
  Server.mask pan = "" ∨ Server.mask pan = "****" ∨
  ∃ pre t, Server.strip_spaces pan = pre ++ t ∧ String.length t = 4%nat ∧
           Server.mask pan = "**** **** **** " ++ t.
Proof.
  unfold Server.mask. case_decide; [by left|].
  destruct (String.length (Server.strip_spaces pan) <=? 4)%nat eqn:Hlen;
    [by right; left|].
  right; right. apply Nat.leb_gt in Hlen.
  destruct (substring_suffix (Server.strip_spaces pan)
              (String.length (Server.strip_spaces pan) - 4)) as (pre & Hs & Hl);
    [lia|].
  replace (String.length (Server.strip_spaces pan)
           - (String.length (Server.strip_spaces pan) - 4))%nat
    with 4%nat in * by lia.
  eauto.
Qed.

Lemma mask_masked pan : masked (Server.mask pan).
Proof.
  destruct (mask_shape pan) as [H|[H|(pre & t & _ & Ht & H)]];
    rewrite H; unfold masked; eauto.
Qed.

(** * Rounding to a double *)

Lemma pow2_pos e : (0 < pow2 e)%Q.
Proof. apply Qpower_0_lt. reflexivity. Qed.

Lemma pow2_plus a b : (pow2 (a + b) == pow2 a * pow2 b)%Q.
Proof. apply Qpower_plus. discriminate. Qed.

Lemma pow2_Z n : 0 <= n → (pow2 n == inject_Z (2 ^ n))%Q.
Proof. intros Hn. unfold pow2. by rewrite (Zpower_Qpower 2 n Hn). Qed.

Lemma pow2_le a b : a <= b → (pow2 a <= pow2 b)%Q.
Proof. intros H. apply Qpower_le_compat_l; [done|]. unfold Qle; cbn; lia. Qed.

Lemma pow2_lt a b : a < b → (pow2 a < pow2 b)%Q.
Proof. intros H. apply Qpower_lt_compat_l; [done|]. reflexivity. Qed.

Lemma pow2_lt_inv a b : (pow2 a < pow2 b)%Q → a < b.
Proof.
  intros H. destruct (Z_lt_le_dec a b) as [|Hle]; [done|].
  apply pow2_le in Hle. apply Qle_not_lt in Hle. done.
Qed.

Lemma round_even_bound y :
  (inject_Z (round_even y) - y <= 1 # 2)%Q ∧ (y - inject_Z (round_even y) <= 1 # 2)%Q.
Proof.
  unfold round_even.
  pose proof (Qfloor_le y) as Hlo. pose proof (Qlt_floor y) as Hhi.
  rewrite inject_Z_plus in Hhi. change (inject_Z 1) with 1%Q in Hhi.
  destruct (y - inject_Z (Qfloor y) ?= 1 # 2)%Q eqn:Hc.
  - apply Qeq_alt in Hc. destruct (Z.even (Qfloor y)).
    + generalize dependent (inject_Z (Qfloor y)). intros f; split; lra.
    + rewrite inject_Z_plus. change (inject_Z 1) with 1%Q.
      generalize dependent (inject_Z (Qfloor y)). intros f; split; lra.
  - apply Qlt_alt in Hc.
    generalize dependent (inject_Z (Qfloor y)). intros f; split; lra.
  - apply Qgt_alt in Hc. rewrite inject_Z_plus. change (inject_Z 1) with 1%Q.
    generalize dependent (inject_Z (Qfloor y)). intros f; split; lra.
Qed.

Lemma round_even_int y z : (y == inject_Z z)%Q → round_even y = z.
Proof.
  intros Hy. unfold round_even.
  assert (Hf : Qfloor y = z) by (rewrite Hy; apply Qfloor_Z).
  rewrite Hf.
  assert ((y - inject_Z z ?= 1 # 2)%Q = Lt) as ->; [|done].
  apply (proj1 (Qlt_alt _ _)). rewrite Hy. generalize (inject_Z z). intros f. lra.
Qed.

Lemma round_even_nonneg y : (0 <= y)%Q → 0 <= round_even y.
Proof.
  intros Hy. unfold round_even.
  assert (0 <= Qfloor y).
  { change 0 with (Qfloor 0). by apply Qfloor_resp_le. }
  destruct (_ ?= _)%Q; [destruct (Z.even _)|..]; lia.
Qed.

Lemma floor_log2_spec x :
  (0 < x)%Q →
  (pow2 (floor_log2 x) <= x)%Q ∧ (x < pow2 (floor_log2 x + 1))%Q.
Proof.
  intros Hx. destruct x as [n d]. unfold floor_log2. cbn [Qnum Qden].
  assert (Hn : 0 < n) by (unfold Qlt in Hx; cbn in Hx; lia).
  pose proof (Z.log2_spec n Hn) as [Hn1 Hn2].
  pose proof (Z.log2_spec (Zpos d) (Pos2Z.is_pos d)) as [Hd1 Hd2].
  pose proof (Z.log2_nonneg n) as Ha. pose proof (Z.log2_nonneg (Zpos d)) as Hb.
  set (a := Z.log2 n) in *. set (b := Z.log2 (Zpos d)) in *.
  rewrite Z.pow_succ_r in Hn2, Hd2 by done.
  rewrite Zle_Qle in Hn1, Hd1. rewrite Zlt_Qlt in Hn2, Hd2.
  rewrite inject_Z_mult in Hn2, Hd2.
  rewrite <- pow2_Z in Hn1, Hn2, Hd1, Hd2 by done.
  assert (Hxq : (n # d) * inject_Z (Zpos d) == inject_Z n).
  { rewrite (Qmake_Qdiv n d). field. discriminate. }
  assert (Hsplit : pow2 (a - b) * pow2 b == pow2 a).
  { rewrite <- pow2_plus. by replace (a - b + b) with a by lia. }
  assert (Hup : pow2 (a - b + 1) == 2 * pow2 (a - b)).
  { rewrite pow2_plus. change (pow2 1) with (2 # 1)%Q. ring. }
  assert (Hdown : 2 * pow2 (a - b - 1) == pow2 (a - b)).
  { replace (a - b) with (a - b - 1 + 1) at 2 by lia. rewrite pow2_plus.
    change (pow2 1) with (2 # 1)%Q. ring. }
  pose proof (pow2_pos b) as HB. pose proof (pow2_pos (a - b)) as HE.
  pose proof (pow2_pos (a - b - 1)) as HE'.
  change (inject_Z 2) with (2 # 1)%Q in *.
  assert (Hx1 : (n # d < 2 * pow2 (a - b))%Q).
  { generalize dependent (pow2 (a - b)). intros E.
    generalize dependent (pow2 a). intros A.
    generalize dependent (pow2 b). intros B.
    generalize dependent (inject_Z n). intros nq.
    generalize dependent (inject_Z (Zpos d)). intros dq.
    generalize dependent (n # d). intros x. intros. nra. }
  assert (Hx2 : (pow2 (a - b - 1) <= n # d)%Q).
  { generalize dependent (pow2 (a - b - 1)). intros E'.
    generalize dependent (pow2 (a - b)). intros E.
    generalize dependent (pow2 a). intros A.
    generalize dependent (pow2 b). intros B.
    generalize dependent (inject_Z n). intros nq.
    generalize dependent (inject_Z (Zpos d)). intros dq.
    generalize dependent (n # d). intros x. intros. nra. }
  destruct (Qle_bool (pow2 (a - b)) (n # d)) eqn:Hle.
  - apply Qle_bool_iff in Hle. split; [done|]. by rewrite Hup.
  - replace (a - b - 1 + 1) with (a - b) by lia.
    split; [done|].
    apply Qnot_le_lt. intros H%Qle_bool_iff. congruence.
Qed.

Lemma floor_log2_lt x k : (0 < x)%Q → (x < pow2 k)%Q → floor_log2 x < k.
Proof.
  intros Hx Hk. destruct (floor_log2_spec x Hx) as [Hlo _].
  apply pow2_lt_inv. by apply Qle_lt_trans with x.
Qed.

Lemma floor_log2_ge x k : (pow2 k <= x)%Q → k <= floor_log2 x.
Proof.
  intros Hk.
  assert (Hx : (0 < x)%Q) by (apply Qlt_le_trans with (pow2 k); [apply pow2_pos|done]).
  destruct (floor_log2_spec x Hx) as [_ Hhi].
  assert (k < floor_log2 x + 1); [|lia].
  apply pow2_lt_inv. by apply Qle_lt_trans with x.
Qed.

Lemma round64_eq a :
  (round64 a ==
   inject_Z (round_even (a / pow2 (Z.max (floor_log2 a - 52) (-1074))))
   * pow2 (Z.max (floor_log2 a - 52) (-1074)))%Q.
Proof. reflexivity. Qed.

(** The result is within half a unit in the last place. *)
Lemma round64_error a :
  let u := Z.max (floor_log2 a - 52) (-1074) in
  (round64 a - a <= pow2 u * (1 # 2))%Q ∧ (a - round64 a <= pow2 u * (1 # 2))%Q.
Proof.
  intros u. unfold round64. fold u.
  pose proof (pow2_pos u) as HP.
  destruct (round_even_bound (a / pow2 u)) as [H1 H2].
  assert (Ha : a == a / pow2 u * pow2 u).
  { field. intros H0. rewrite H0 in HP. by apply Qlt_irrefl in HP. }
  generalize dependent (inject_Z (round_even (a / pow2 u))). intros m.
  generalize dependent (a / pow2 u)%Q. intros y.
  generalize dependent (pow2 u). intros P. intros. split; nra.
Qed.

Lemma round64_nonneg a : (0 <= a)%Q → (0 <= round64 a)%Q.
Proof.
  intros Ha. unfold round64.
  set (u := Z.max _ _). pose proof (pow2_pos u) as HP.
  apply Qmult_le_0_compat; [|by apply Qlt_le_weak].
  change 0%Q with (inject_Z 0). rewrite <- Zle_Qle.
  apply round_even_nonneg. apply Qle_shift_div_l; [done|]. by rewrite Qmult_0_l.
Qed.

(** A multiple of the unit in the last place is kept. *)
Lemma round64_exact a z :
  (a == inject_Z z * pow2 (Z.max (floor_log2 a - 52) (-1074)))%Q →
  (round64 a == a)%Q.
Proof.
  intros Ha. unfold round64. set (u := Z.max _ _) in *.
  pose proof (pow2_pos u) as HP.
  rewrite (round_even_int (a / pow2 u) z); [by symmetry|].
  rewrite Ha. field. intros H0. rewrite H0 in HP. by apply Qlt_irrefl in HP.
Qed.

(** Below 32 the result is within 2^-49 above. *)
Lemma round64_upper_small a :
  (0 < a)%Q → (a < 32 # 1)%Q → (round64 a <= a + pow2 (-49))%Q.
Proof.
  intros Ha H32. destruct (round64_error a) as [Hup _]. cbn zeta in Hup.
  assert (He : floor_log2 a < 5) by (by apply floor_log2_lt).
  assert (Hu : (pow2 (Z.max (floor_log2 a - 52) (-1074)) <= pow2 (-48))%Q)
    by (apply pow2_le; lia).
  assert (H48 : pow2 (-48) * (1 # 2) == pow2 (-49)) by reflexivity.
  generalize dependent (pow2 (Z.max (floor_log2 a - 52) (-1074))). intros P.
  generalize dependent (round64 a). intros r. intros.
  rewrite <- H48. generalize dependent (pow2 (-48)). intros P48. intros. lra.
Qed.

(** From 4 on the result is above by at most one part in 2^53. *)
Lemma round64_lower a :
  (4 # 1 <= a)%Q → (a - a * pow2 (-53) <= round64 a)%Q.
Proof.
  intros H4. destruct (round64_error a) as [_ Hlo]. cbn zeta in Hlo.
  assert (He : 2 <= floor_log2 a) by (by apply floor_log2_ge).
  assert (Ha : (0 < a)%Q) by lra.
  destruct (floor_log2_spec a Ha) as [Hspec _].
  rewrite Z.max_l in Hlo by lia.
  assert (Hp : pow2 (floor_log2 a - 52) * (1 # 2)
               == pow2 (floor_log2 a) * pow2 (-53)).
  { replace (floor_log2 a - 52) with (floor_log2 a + -52) by lia.
    rewrite pow2_plus. rewrite <- Qmult_assoc. apply Qmult_comp; [reflexivity|].
    reflexivity. }
  rewrite Hp in Hlo. pose proof (pow2_pos (-53)) as H53.
  generalize dependent (pow2 (floor_log2 a)). intros E.
  generalize dependent (pow2 (-53)). intros eps.
  generalize dependent (round64 a). intros r. intros. nra.
Qed.

Lemma pow2_nonzero u : ¬ (pow2 u == 0)%Q.
Proof. intros H0. pose proof (pow2_pos u) as HP. rewrite H0 in HP. by apply Qlt_irrefl in HP. Qed.

(** A whole number below 2^53 is kept. *)
Lemma round64_int d D :
  (d == inject_Z D)%Q → 0 < D < 2 ^ 53 → (round64 d == d)%Q.
Proof.
  intros Hd [Hpos Hlt].
  assert (H0 : 0 <= floor_log2 d).
  { apply floor_log2_ge. rewrite Hd. change (pow2 0) with (inject_Z 1).
    rewrite <- Zle_Qle. lia. }
  assert (H53 : floor_log2 d < 53).
  { apply floor_log2_lt.
    - rewrite Hd. change 0%Q with (inject_Z 0). rewrite <- Zlt_Qlt. lia.
    - rewrite Hd, (pow2_Z 53) by lia. by rewrite <- Zlt_Qlt. }
  apply (round64_exact d (D * 2 ^ (52 - floor_log2 d))).
  rewrite Z.max_l by lia. rewrite inject_Z_mult, <- pow2_Z by lia.
  rewrite <- Qmult_assoc, <- pow2_plus.
  replace (52 - floor_log2 d + (floor_log2 d - 52)) with 0 by lia.
  rewrite Hd. change (pow2 0) with 1%Q. ring.
Qed.

(** Hours that are a whole number of milliseconds compare with 6 and with 24
    after rounding as they do before. *)
Lemma round64_hours_lt y N c :
  0 < N →
  (y == inject_Z N / inject_Z 3600000)%Q →
  c = 6 ∨ c = 24 →
  (round64 y < inject_Z c)%Q ↔ (y < inject_Z c)%Q.
Proof.
  intros HN Hy Hc.
  assert (HyN : (y * (3600000 # 1) == inject_Z N)%Q).
  { rewrite Hy. change (inject_Z 3600000) with (3600000 # 1)%Q.
    generalize (inject_Z N). intros Nq. field. }
  assert (Hypos : (0 < y)%Q).
  { assert (0 < inject_Z N)%Q
      by (change 0%Q with (inject_Z 0); by rewrite <- Zlt_Qlt).
    generalize dependent (inject_Z N). intros Nq. intros. lra. }
  assert (Hcq : (6 # 1 <= inject_Z c)%Q ∧ (inject_Z c <= 24 # 1)%Q).
  { destruct Hc as [-> | ->]; split; by vm_compute. }
  assert (Hcases : N <= c * 3600000 - 1 ∨ N = c * 3600000
                   ∨ c * 3600000 + 1 <= N) by lia.
  destruct Hcases as [Hlt|[Heq|Hgt]].
  - (* below *)
    rewrite Zle_Qle in Hlt. unfold Z.sub in Hlt.
    rewrite inject_Z_plus, inject_Z_mult in Hlt.
    change (inject_Z 3600000) with (3600000 # 1)%Q in Hlt.
    change (inject_Z (- (1))) with (- (1))%Q in Hlt.
    assert (Hyc : (y <= inject_Z c - (1 # 3600000))%Q).
    { generalize dependent (inject_Z N). intros Nq.
      generalize dependent (inject_Z c). intros cq. intros. lra. }
    assert (H32 : (y < 32 # 1)%Q).
    { generalize dependent (inject_Z c). intros cq. intros. lra. }
    pose proof (round64_upper_small y Hypos H32) as Hup.
    change (pow2 (-49)) with (1 # 562949953421312)%Q in Hup.
    generalize dependent (round64 y). intros r.
    generalize dependent (inject_Z c). intros cq. intros.
    split; intros; lra.
  - (* at the threshold *)
    assert (Hyc : (y == inject_Z c)%Q).
    { subst N. rewrite inject_Z_mult in HyN.
      change (inject_Z 3600000) with (3600000 # 1)%Q in HyN.
      generalize dependent (inject_Z c). intros cq. intros. lra. }
    assert (Hex : (round64 y == y)%Q).
    { apply (round64_int y c Hyc). destruct Hc as [-> | ->]; lia. }
    rewrite Hex. reflexivity.
  - (* above *)
    rewrite Zle_Qle in Hgt.
    rewrite inject_Z_plus, inject_Z_mult in Hgt.
    change (inject_Z 3600000) with (3600000 # 1)%Q in Hgt.
    change (inject_Z 1) with 1%Q in Hgt.
    assert (Hyc : (inject_Z c + (1 # 3600000) <= y)%Q).
    { generalize dependent (inject_Z N). intros Nq.
      generalize dependent (inject_Z c). intros cq. intros. lra. }
    assert (H4 : (4 # 1 <= y)%Q).
    { generalize dependent (inject_Z c). intros cq. intros. lra. }
    pose proof (round64_lower y H4) as Hlo.
    change (pow2 (-53)) with (1 # 9007199254740992)%Q in Hlo.
    generalize dependent (round64 y). intros r.
    generalize dependent (inject_Z c). intros cq. intros.
    split; intros; lra.
Qed.

Lemma binary64_zero x : (x == 0)%Q → binary64 x = 0%Q.
Proof. intros Hx%Qeq_bool_iff. unfold binary64. by rewrite Hx. Qed.

Lemma binary64_pos x : (0 < x)%Q → binary64 x = round64 x.
Proof.
  intros Hx. unfold binary64.
  assert (Qeq_bool x 0 = false) as ->.
  { apply not_true_iff_false. intros H%Qeq_bool_iff. rewrite H in Hx.
    by apply Qlt_irrefl in Hx. }
  assert (Qle_bool 0 x = true) as ->; [|done].
  apply Qle_bool_iff. by apply Qlt_le_weak.
Qed.

Lemma binary64_neg x : (x < 0)%Q → binary64 x = (- round64 (- x))%Q.
Proof.
  intros Hx. unfold binary64.
  assert (Qeq_bool x 0 = false) as ->.
  { apply not_true_iff_false. intros H%Qeq_bool_iff. rewrite H in Hx.
    by apply Qlt_irrefl in Hx. }
  assert (Qle_bool 0 x = false) as ->; [|done].
  apply not_true_iff_false. intros H%Qle_bool_iff.
  apply (Qlt_irrefl 0). by apply Qle_lt_trans with x.
Qed.

(** The hours from a positive whole number of milliseconds. *)
Lemma hours64_pos d D y c :
  (d == inject_Z D)%Q →
  0 < D →
  (y == round64 d / inject_Z 3600000)%Q →
  c = 6 ∨ c = 24 →
  (0 < round64 d)%Q ∧ (0 < y)%Q ∧
  ((round64 y < inject_Z c)%Q ↔ (d / inject_Z 3600000 < inject_Z c)%Q).
Proof.
  intros Hd HD Hy Hc.
  assert (Hcq : (6 # 1 <= inject_Z c)%Q ∧ (inject_Z c <= 24 # 1)%Q).
  { destruct Hc as [-> | ->]; split; by vm_compute. }
  assert (Hd1 : (1 <= d)%Q).
  { rewrite Hd. change 1%Q with (inject_Z 1). rewrite <- Zle_Qle. lia. }
  change (inject_Z 3600000) with (3600000 # 1)%Q in *.
  destruct (Z_lt_le_dec D (2 ^ 53)) as [Hsmall|Hbig].
  - assert (Hex : (round64 d == d)%Q) by (by apply (round64_int d D)).
    assert (HyD : (y == inject_Z D / inject_Z 3600000)%Q).
    { rewrite Hy, Hex, Hd. reflexivity. }
    pose proof (round64_hours_lt y D c HD HyD Hc) as Hiff.
    assert (Hyd : (y == d / (3600000 # 1))%Q) by (by rewrite Hy, Hex).
    assert (Hyq : (y * (3600000 # 1) == d)%Q) by (rewrite Hyd; field).
    split; [rewrite Hex; lra|]. split; [lra|].
    rewrite Hiff, Hyd. reflexivity.
  - rewrite Zle_Qle in Hbig. rewrite <- Hd in Hbig.
    change (inject_Z (2 ^ 53)) with (9007199254740992 # 1)%Q in Hbig.
    assert (H4 : (4 # 1 <= d)%Q) by lra.
    pose proof (round64_lower d H4) as Hlo.
    change (pow2 (-53)) with (1 # 9007199254740992)%Q in Hlo.
    assert (HyK : (y * (3600000 # 1) == round64 d)%Q).
    { rewrite Hy. generalize (round64 d). intros K. field. }
    assert (Hy4 : (4 # 1 <= y)%Q).
    { generalize dependent (round64 d). intros K. intros. lra. }
    pose proof (round64_lower y Hy4) as Hlo'.
    change (pow2 (-53)) with (1 # 9007199254740992)%Q in Hlo'.
    assert (Hdq : (d / (3600000 # 1) * (3600000 # 1) == d)%Q) by field.
    generalize dependent (d / (3600000 # 1))%Q. intros h.
    generalize dependent (round64 y). intros r.
    generalize dependent (round64 d). intros K.
    generalize dependent (inject_Z c). intros cq. intros.
    split; [lra|]. split; [lra|]. split; intros; lra.
Qed.

Lemma hours64_lt_iff d D c :
  (d == inject_Z D)%Q →
  c = 6 ∨ c = 24 →
  (Qabs (binary64 (binary64 d / inject_Z 3600000)) < inject_Z c)%Q
  ↔ (Qabs (d / inject_Z 3600000) < inject_Z c)%Q.
Proof.
  intros Hd Hc.
  assert (Hcq : (6 # 1 <= inject_Z c)%Q ∧ (inject_Z c <= 24 # 1)%Q).
  { destruct Hc as [-> | ->]; split; by vm_compute. }
  destruct (Z.lt_trichotomy D 0) as [Hneg|[Hzero|Hpos]].
  - (* negative *)
    assert (Hd' : (- d == inject_Z (- D))%Q) by (by rewrite inject_Z_opp, Hd).
    assert (Hdneg : (d < 0)%Q).
    { rewrite Hd. change 0%Q with (inject_Z 0). rewrite <- Zlt_Qlt. lia. }
    rewrite (binary64_neg d Hdneg).
    set (y := (- (- round64 (- d) / inject_Z 3600000))%Q).
    assert (Hy : (y == round64 (- d) / inject_Z 3600000)%Q).
    { subst y. change (inject_Z 3600000) with (3600000 # 1)%Q.
      generalize (round64 (- d)). intros K. field. }
    destruct (hours64_pos (- d) (- D) y c Hd' ltac:(lia) Hy Hc)
      as (HK & Hypos & Hiff).
    assert (Hyneg : (- round64 (- d) / inject_Z 3600000 < 0)%Q).
    { subst y. generalize dependent (- round64 (- d) / inject_Z 3600000)%Q.
      intros z. intros. lra. }
    rewrite (binary64_neg _ Hyneg). fold y.
    rewrite Qabs_opp, (Qabs_pos (round64 y)) by (apply round64_nonneg; lra).
    rewrite Hiff.
    assert (Habs : (Qabs (d / inject_Z 3600000) == - d / inject_Z 3600000)%Q).
    { rewrite Qabs_neg.
      - change (inject_Z 3600000) with (3600000 # 1)%Q. field.
      - change (inject_Z 3600000) with (3600000 # 1)%Q.
        assert (Hq : (d / (3600000 # 1) * (3600000 # 1) == d)%Q) by field.
        generalize dependent (d / (3600000 # 1))%Q. intros h. intros. lra. }
    rewrite Habs. reflexivity.
  - (* zero *)
    subst D. rewrite (binary64_zero d Hd).
    rewrite (binary64_zero (0 / inject_Z 3600000)) by reflexivity.
    assert (Habs : (Qabs (d / inject_Z 3600000) == 0)%Q).
    { rewrite Hd. reflexivity. }
    rewrite Habs. change (Qabs 0) with 0%Q. reflexivity.
  - (* positive *)
    assert (Hdpos : (0 < d)%Q).
    { rewrite Hd. change 0%Q with (inject_Z 0). rewrite <- Zlt_Qlt. lia. }
    rewrite (binary64_pos d Hdpos).
    destruct (hours64_pos d D (round64 d / inject_Z 3600000) c Hd Hpos
                ltac:(reflexivity) Hc) as (HK & Hypos & Hiff).
    rewrite (binary64_pos _ Hypos).
    rewrite (Qabs_pos (round64 _)) by (apply round64_nonneg; lra).
    rewrite Hiff.
    assert (Habs : (Qabs (d / inject_Z 3600000) == d / inject_Z 3600000)%Q).
    { apply Qabs_pos. change (inject_Z 3600000) with (3600000 # 1)%Q.
      assert (Hq : (d / (3600000 # 1) * (3600000 # 1) == d)%Q) by field.
      generalize dependent (d / (3600000 # 1))%Q. intros h. intros. lra. }
    rewrite Habs. reflexivity.
Qed.

(** The hours the program holds compare with 6 and with 24 as the exact
    hours do: the milliseconds are whole numbers, and rounding moves no
    quotient of them across 6 or 24. *)
Lemma diffHours64_lt now last :
  num_lt (Server.diffHours64 now last) (6 # 1)
  = num_lt (Server.diffHours now last) (6 # 1) ∧
  num_lt (Server.diffHours64 now last) (24 # 1)
  = num_lt (Server.diffHours now last) (24 # 1).
Proof.
  destruct now as [t1|], last as [t2|]; try (by split).
  change (Server.diffHours64 (Instant t1) (Instant t2))
    with (Num (Qabs (binary64 (binary64 (inject_Z t1 - inject_Z t2)
                               / inject_Z 3600000)))).
  change (Server.diffHours (Instant t1) (Instant t2))
    with (Num (Qabs ((inject_Z t1 - inject_Z t2) / inject_Z 3600000))).
  assert (Hd : (inject_Z t1 - inject_Z t2 == inject_Z (t1 - t2))%Q).
  { unfold Z.sub, Qminus. by rewrite inject_Z_plus, inject_Z_opp. }
  assert (Hlt : ∀ c, c = 6 ∨ c = 24 →
            num_lt (Num (Qabs (binary64 (binary64 (inject_Z t1 - inject_Z t2)
                                         / inject_Z 3600000)))) (inject_Z c)
            = num_lt (Num (Qabs ((inject_Z t1 - inject_Z t2)
                                 / inject_Z 3600000))) (inject_Z c)).
  { intros c Hc. apply eq_true_iff_eq. rewrite !num_lt_below. unfold below.
    pose proof (hours64_lt_iff _ _ c Hd Hc) as Hiff.
    split; intros (x & [= <-] & Hx); eexists; (split; [reflexivity|]);
      by apply Hiff. }
  split; [apply (Hlt 6); by left|apply (Hlt 24); by right].
Qed.

Lemma diffHours64_invalid now last :
  now = InvalidDate ∨ last = InvalidDate → Server.diffHours64 now last = NaN.
Proof. intros [-> | ->]; [done|]. by destruct now. Qed.

(** Checks 54 seconds apart: the quotient is the double just below 0.015,
    which [toFixed] rounds down. *)
Example hours_since_54_seconds :
  toFixed2 (Server.diffHours64 (Instant 54000) (Instant 0)) = Num (1 # 100) ∧
  toFixed2 (Server.diffHours64 (Instant 3618000) (Instant 0))
  = Num (100 # 100) ∧
  toFixed2 (Server.diffHours64 (Instant 0) (Instant 450000)) = Num (13 # 100).
Proof. by vm_compute. Qed.

(** * Facts about server.js *)

Section ServerFacts.

Variable dist : coord → coord → coord → coord → number.

Local Abbreviation check := (Server.check dist).
Local Abbreviation compute_risk := (Server.compute_risk dist).

(** A check with a card number: the store it leaves and its response. *)
Lemma check_eq cards req io :
  Server.q_cardNumber req ≠ "" →
  let cn := Server.q_cardNumber req in
  let card := prior cards cn in
  let raw :=
    compute_risk card (check_coords req io).1 (check_coords req io).2
      (check_now req io) in
  let risk := Server.status_overrides (status card) raw.1 in
  check cards req io =
  (Db.updateLastSeen (Db.addHistory cards cn (check_entry req io risk)) cn
     (check_location req io),
   Server.CheckOk
     {| Server.view_cardNumber := Server.mask cn;
        Server.view_status := status card;
        Server.view_reported := reported card;
        Server.view_lastSeen := Some (check_location req io) |}
     risk raw.2).
Proof.
  intros Hcn cn card raw risk. unfold Server.check.
  rewrite decide_False by done.
  fold cn (check_now req io) (check_coords req io) (prior cards cn). fold card.
  destruct (check_coords req io) as [curLat curLon] eqn:Hcoords.
  subst raw risk. cbn [fst snd].
  unfold check_entry, check_location. rewrite Hcoords. cbn [fst snd].
  destruct (compute_risk card curLat curLon (check_now req io))
    as [risk0 details] eqn:Hraw. cbn [fst snd].
  rewrite DbFacts.getCard_updateLastSeen, DbFacts.getCard_addHistory.
  reflexivity.
Qed.

(** The risk block when there is a last location and both coordinates: the
    thresholds are told by the exact hours, the details carry the hours the
    program holds. *)
Lemma compute_risk_comparable card ls lat lon now :
  lastSeen card = Some ls →
  let d := dist (loc_lat ls) (loc_lon ls) (Some lat) (Some lon) in
  let h := Server.diffHours now (loc_timestamp ls) in
  compute_risk card (Some lat) (Some lon) now =
  (if num_gt d (500 # 1) && num_lt h (6 # 1) then HIGH
   else if num_gt d (100 # 1) && num_lt h (24 # 1) then MEDIUM
   else LOW,
   {| Server.distance_km := Some (toFixed2 d);
      Server.hours_since_last :=
        Some (toFixed2 (Server.diffHours64 now (loc_timestamp ls)));
      Server.note := None |}).
Proof.
  intros Hls d h. unfold Server.compute_risk. rewrite Hls. fold d.
  destruct (diffHours64_lt now (loc_timestamp ls)) as [-> ->]. fold h.
  by destruct (num_gt d (500 # 1) && num_lt h (6 # 1)),
             (num_gt d (100 # 1) && num_lt h (24 # 1)).
Qed.

(** The risk block when there is nothing to compare with. *)
Lemma compute_risk_incomparable card curLat curLon now :
  lastSeen card = None ∨ curLat = None ∨ curLon = None →
  compute_risk card curLat curLon now =
  (LOW, {| Server.distance_km := None; Server.hours_since_last := None;
           Server.note := Some Server.no_previous_location |}).
Proof.
  unfold Server.compute_risk.
  intros [->|[->| ->]]; [done| |]; by repeat case_match.
Qed.

(** A [lastSeen] whose own coordinates are null is compared all the same:
    the risk block tests the current coordinates only. *)
Lemma compute_risk_prior_unresolved card ts lat lon now :
  lastSeen card
  = Some {| loc_lat := None; loc_lon := None; loc_timestamp := ts |} →
  Server.distance_km (compute_risk card (Some lat) (Some lon) now).2
  = Some (toFixed2 (dist None None (Some lat) (Some lon))) ∧
  Server.note (compute_risk card (Some lat) (Some lon) now).2 = None.
Proof.
  intros Hls. by rewrite (compute_risk_comparable card _ lat lon now Hls).
Qed.

Lemma status_overrides_eq st risk :
  Server.status_overrides st risk =
  match st with active => risk | frozen => FROZEN | blocked => BLOCKED end.
Proof. by destruct st. Qed.

Lemma andb_conj (P Q : Prop) (a b : bool) :
  (a = true ↔ P) → (b = true ↔ Q) → (a && b = true ↔ P ∧ Q).
Proof. intros HP HQ. rewrite andb_true_iff. tauto. Qed.

(** C1: a check with a last location and both current coordinates gets its
    risk, before the status overrides, from the two thresholds in order:
    HIGH when the distance is above 500 km and less than 6 hours have
    passed, otherwise MEDIUM when it is above 100 km and less than 24 hours
    have passed, otherwise LOW; the hours passed between two valid dates
    are the absolute difference of the two, whichever is the later. *)
Theorem check_risk_thresholds cards req io ls lat lon :
  Server.q_cardNumber req ≠ "" →
  lastSeen (prior cards (Server.q_cardNumber req)) = Some ls →
  check_coords req io = (Some lat, Some lon) →
  let card := prior cards (Server.q_cardNumber req) in
  let d := dist (loc_lat ls) (loc_lon ls) (Some lat) (Some lon) in
  let h := Server.diffHours (check_now req io) (loc_timestamp ls) in
  let first := exceeds d (500 # 1) ∧ below h (6 # 1) in
  let second := exceeds d (100 # 1) ∧ below h (24 # 1) in
  ∃ raw view details,
    (compute_risk card (Some lat) (Some lon) (check_now req io)).1 = raw ∧
    (check cards req io).2
    = Server.CheckOk view (Server.status_overrides (status card) raw)
        details ∧
    (status card = active →
     (check cards req io).2 = Server.CheckOk view raw details) ∧
    (first → raw = HIGH) ∧
    (¬ first → second → raw = MEDIUM) ∧
    (¬ first → ¬ second → raw = LOW) ∧
    (∀ t1 t2, check_now req io = Instant t1 →
              loc_timestamp ls = Instant t2 →
              ∃ q, h = Num q ∧ (q == hours_between t1 t2)%Q ∧
                   (q == hours_between t2 t1)%Q).
Proof.
  intros Hcn Hls Hcoords card d h first second.
  pose proof (check_eq cards req io Hcn) as Heq. cbn zeta in Heq.
  rewrite Hcoords in Heq. cbn [fst snd] in Heq.
  pose proof (compute_risk_comparable card ls lat lon (check_now req io) Hls)
    as Hraw. cbn zeta in Hraw. fold d h in Hraw. fold card in Heq.
  rewrite Hraw in Heq |- *. cbn [fst snd] in Heq |- *.
  assert (Hfirst : num_gt d (500 # 1) && num_lt h (6 # 1) = true ↔ first)
    by (apply andb_conj; [apply num_gt_exceeds|apply num_lt_below]).
  assert (Hsecond : num_gt d (100 # 1) && num_lt h (24 # 1) = true ↔ second)
    by (apply andb_conj; [apply num_gt_exceeds|apply num_lt_below]).
  eexists _, _, _. split; [reflexivity|].
  split; [by rewrite Heq|].
  split; [intros Hact; rewrite Heq, Hact; reflexivity|].
  assert (Hraw1 : first →
            (if num_gt d (500 # 1) && num_lt h (6 # 1) then HIGH
             else if num_gt d (100 # 1) && num_lt h (24 # 1) then MEDIUM
             else LOW) = HIGH).
  { intros ->%Hfirst. done. }
  assert (Hraw2 : ¬ first → second →
            (if num_gt d (500 # 1) && num_lt h (6 # 1) then HIGH
             else if num_gt d (100 # 1) && num_lt h (24 # 1) then MEDIUM
             else LOW) = MEDIUM).
  { intros Hn ->%Hsecond.
    destruct (num_gt d (500 # 1) && num_lt h (6 # 1)); [|done].
    destruct Hn. by apply Hfirst. }
  assert (Hraw3 : ¬ first → ¬ second →
            (if num_gt d (500 # 1) && num_lt h (6 # 1) then HIGH
             else if num_gt d (100 # 1) && num_lt h (24 # 1) then MEDIUM
             else LOW) = LOW).
  { intros Hn1 Hn2.
    destruct (num_gt d (500 # 1) && num_lt h (6 # 1));
      [destruct Hn1; by apply Hfirst|].
    destruct (num_gt d (100 # 1) && num_lt h (24 # 1)); [|done].
    destruct Hn2. by apply Hsecond. }
  split_and!; [done..|].
  intros t1 t2 Hnow Hlast. subst h. rewrite Hnow, Hlast.
  destruct (diffHours_instants t1 t2) as (q & Hq & Hqq).
  exists q. split; [done|]. split; [done|].
  rewrite Hqq. unfold hours_between.
    by replace (t2 - t1) with (- (t1 - t2)) by lia; rewrite Z.abs_opp.
Qed.

Lemma prior_Some cards cn card :
  Db.getCard cards cn = Some card → prior cards cn = card.
Proof. unfold prior. by intros ->. Qed.

(** The stored record after a check with a card number. *)
Lemma getCard_check cards req io :
  Server.q_cardNumber req ≠ "" →
  let cn := Server.q_cardNumber req in
  let card := prior cards cn in
  let raw :=
    compute_risk card (check_coords req io).1 (check_coords req io).2
      (check_now req io) in
  let risk := Server.status_overrides (status card) raw.1 in
  Db.getCard (check cards req io).1 cn =
  Some {| cardNumber := cn;
          lastSeen := Some (check_location req io);
          status := status card;
          reported := reported card;
          history := take 200 (check_entry req io risk :: history card) |}.
Proof.
  intros Hcn cn card raw risk.
  pose proof (check_eq cards req io Hcn) as Heq. cbn zeta in Heq.
  rewrite Heq. cbn [fst].
  rewrite DbFacts.getCard_updateLastSeen, DbFacts.getCard_addHistory.
  cbn [default lastSeen status reported history].
  by rewrite DbFacts.pushHistory_take.
Qed.

(** C2: a check on a blocked card answers BLOCKED and one on a frozen card
    answers FROZEN, whatever the distance and the time; the details are
    those the risk block computed, so with a last location and both current
    coordinates they carry [distance_km] and [hours_since_last], the
    distance and the hours the program holds, each rounded to two
    decimals. *)
Theorem check_status_override cards req io card :
  Server.q_cardNumber req ≠ "" →
  Db.getCard cards (Server.q_cardNumber req) = Some card →
  ∃ view risk details,
    (check cards req io).2 = Server.CheckOk view risk details ∧
    (status card = blocked → risk = BLOCKED) ∧
    (status card = frozen → risk = FROZEN) ∧
    details
    = (compute_risk card (check_coords req io).1 (check_coords req io).2
         (check_now req io)).2 ∧
    (∀ ls lat lon,
       lastSeen card = Some ls →
       check_coords req io = (Some lat, Some lon) →
       Server.distance_km details
       = Some (toFixed2
                 (dist (loc_lat ls) (loc_lon ls) (Some lat) (Some lon))) ∧
       Server.hours_since_last details
       = Some (toFixed2
                 (Server.diffHours64 (check_now req io) (loc_timestamp ls))) ∧
       Server.note details = None).
Proof.
  intros Hcn Hcard.
  pose proof (check_eq cards req io Hcn) as Heq. cbn zeta in Heq.
  rewrite (prior_Some _ _ _ Hcard) in Heq.
  eexists _, _, _. split; [by rewrite Heq|].
  rewrite status_overrides_eq.
  split; [by intros ->|]. split; [by intros ->|]. split; [done|].
  intros ls lat lon Hls Hcoords. rewrite Hcoords. cbn [fst snd].
  by rewrite (compute_risk_comparable card ls lat lon _ Hls).
Qed.

(** C5, as the code has it: a check on a card with no [lastSeen], or with
    a current coordinate that is null, computes LOW before the status
    overrides, so it answers LOW for an active card, FROZEN for a frozen one
    and BLOCKED for a blocked one; its details carry the note and neither
    [distance_km] nor [hours_since_last]. *)
Theorem check_no_comparable_location cards req io :
  Server.q_cardNumber req ≠ "" →
  lastSeen (prior cards (Server.q_cardNumber req)) = None ∨
  (check_coords req io).1 = None ∨ (check_coords req io).2 = None →
  ∃ view,
    (check cards req io).2
    = Server.CheckOk view
        (match status (prior cards (Server.q_cardNumber req)) with
         | active => LOW
         | frozen => FROZEN
         | blocked => BLOCKED
         end)
        {| Server.distance_km := None; Server.hours_since_last := None;
           Server.note := Some Server.no_previous_location |}.
Proof.
  intros Hcn Hnone.
  pose proof (check_eq cards req io Hcn) as Heq. cbn zeta in Heq.
  rewrite (compute_risk_incomparable _ _ _ _ Hnone) in Heq.
  cbn [fst snd] in Heq. rewrite status_overrides_eq in Heq.
  eexists. by rewrite Heq.
Qed.

(** C7, as the code has it: every check with a card number replaces
    [lastSeen] by its own observation, whatever timestamp the stored one
    and the new one carry. *)
Theorem check_replaces_lastSeen cards req io :
  Server.q_cardNumber req ≠ "" →
  lastSeen <$> Db.getCard (check cards req io).1 (Server.q_cardNumber req)
  = Some (Some (check_location req io)).
Proof.
  intros Hcn. pose proof (getCard_check cards req io Hcn) as Heq.
  cbn zeta in Heq. by rewrite Heq.
Qed.

(** C9: a check on a blocked or frozen card changes the store the way a
    check on an active card does: a 'checked' entry with the risk BLOCKED
    or FROZEN goes to the front of the history and [lastSeen] becomes the
    new observation; status and reported flag stay. *)
Theorem check_blocked_frozen_mutates cards req io card :
  Server.q_cardNumber req ≠ "" →
  Db.getCard cards (Server.q_cardNumber req) = Some card →
  status card = blocked ∨ status card = frozen →
  let risk := if decide (status card = blocked) then BLOCKED else FROZEN in
  ∃ card',
    Db.getCard (check cards req io).1 (Server.q_cardNumber req) = Some card' ∧
    history card' = take 200 (check_entry req io risk :: history card) ∧
    ev_action (check_entry req io risk) = "checked" ∧
    ev_risk (check_entry req io risk) = Some risk ∧
    lastSeen card' = Some (check_location req io) ∧
    status card' = status card ∧
    reported card' = reported card ∧
    (check cards req io).1
    = Db.updateLastSeen
        (Db.addHistory cards (Server.q_cardNumber req)
           (check_entry req io risk))
        (Server.q_cardNumber req) (check_location req io).
Proof.
  intros Hcn Hcard Hst risk.
  pose proof (getCard_check cards req io Hcn) as Hget.
  pose proof (check_eq cards req io Hcn) as Heq.
  cbn zeta in Hget, Heq. rewrite (prior_Some _ _ _ Hcard) in Hget, Heq.
  rewrite status_overrides_eq in Hget, Heq.
  assert (Hrisk : match status card with
                  | active =>
                      (compute_risk card (check_coords req io).1
                         (check_coords req io).2 (check_now req io)).1
                  | frozen => FROZEN
                  | blocked => BLOCKED
                  end = risk).
  { subst risk. by destruct Hst as [-> | ->]. }
  rewrite Hrisk in Hget, Heq.
  eexists. split; [exact Hget|]. cbn [history lastSeen status reported].
  split_and!; try done. by rewrite Heq.
Qed.

(** C8, as the code has it: the response of a check and the response of an
    action name the card by [mask(cardNumber)] only, which is empty, four
    stars, or three groups of stars and the last four characters of the
    number without its blanks; [getAllCards] returns the store's records
    as they are, card numbers included. *)
Theorem responses_masked cards req io cn act aio :
  match (check cards req io).2 with
  | Server.CheckOk view _ _ =>
      Server.view_cardNumber view = Server.mask (Server.q_cardNumber req) ∧
      masked (Server.view_cardNumber view)
  | Server.Error _ _ => True
  | Server.ActionOk _ _ => False
  end ∧
  match (Server.action cards cn act aio).2 with
  | Server.ActionOk _ brief =>
      Server.brief_cardNumber brief = Server.mask cn ∧
      masked (Server.brief_cardNumber brief)
  | Server.Error _ _ => True
  | Server.CheckOk _ _ _ => False
  end ∧
  (∀ pan, Server.mask pan = "" ∨ Server.mask pan = "****" ∨
          ∃ pre t, Server.strip_spaces pan = pre ++ t ∧
                   String.length t = 4%nat ∧
                   Server.mask pan = "**** **** **** " ++ t) ∧
  Db.getAllCards cards = cards.
Proof.
  split_and!.
  - destruct (decide (Server.q_cardNumber req = "")) as [He|Hne].
    + unfold Server.check. by rewrite decide_True.
    + pose proof (check_eq cards req io Hne) as Heq. cbn zeta in Heq.
      rewrite Heq. cbn. split; [done|]. apply mask_masked.
  - unfold Server.action.
    destruct (bool_decide (cn = "") || bool_decide (act = "")); [done|].
    destruct (Server.apply_action _ act) as [[c m]|]; [|done].
    cbn. split; [done|]. apply mask_masked.
  - apply mask_shape.
  - reflexivity.
Qed.

End ServerFacts.

(** * The store under [addHistory] and [updateLastSeen] *)

Lemma history_prior cards cn : history (prior cards cn) = history_of cards cn.
Proof. unfold prior, history_of. by destruct (Db.getCard cards cn). Qed.

Lemma history_of_addHistory cards cn entry :
  history_of (Db.addHistory cards cn entry) cn
  = take 200 (entry :: history_of cards cn).
Proof.
  unfold history_of at 1. rewrite DbFacts.getCard_addHistory.
  cbn [from_option history]. fold (prior cards cn).
  by rewrite DbFacts.pushHistory_take, history_prior.
Qed.

(** Whatever the store holds, the history [addHistory] leaves for the card
    has at most 200 entries. *)
Lemma addHistory_length cards cn entry :
  (length (history_of (Db.addHistory cards cn entry) cn) <= 200)%nat.
Proof. rewrite history_of_addHistory, length_take. lia. Qed.

(** C3: with histories of at most 200 entries to start with, every run of
    [addHistory] calls leaves histories of at most 200 entries, and so does
    one more call; the new entry goes to the front of the card's history;
    below 200 entries nothing is dropped, and at 200 entries the last entry,
    the oldest, is the one dropped. *)
Theorem history_capped_newest_first cards es cn entry :
  capped cards →
  let cards' := addHistories cards es in
  let h := history_of cards' cn in
  let h1 := history_of (Db.addHistory cards' cn entry) cn in
  capped cards' ∧
  capped (Db.addHistory cards' cn entry) ∧
  (length h1 <= 200)%nat ∧
  h1 = take 200 (entry :: h) ∧
  ((length h < 200)%nat → h1 = entry :: h) ∧
  (∀ (h' : list Event) (oldest : Event),
     h = (h' ++ [oldest])%list → length h = 200%nat → h1 = entry :: h').
Proof.
  intros Hc cards' h h1.
  assert (Hc' : capped cards') by by apply DbFacts.addHistories_capped.
  assert (Hh1 : h1 = take 200 (entry :: h))
    by apply history_of_addHistory.
  split_and!; [done|by apply DbFacts.addHistory_capped| |done| |].
  - apply addHistory_length.
  - intros Hlt. rewrite Hh1. apply take_ge. cbn. lia.
  - intros h' oldest Hh Hlen. rewrite Hh1, Hh. cbn. f_equal.
    apply take_app_length'. rewrite Hh, length_app in Hlen. cbn in Hlen. lia.
Qed.

(** C10: on a card the store has, [updateLastSeen] overwrites the card's
    record in place with a record that differs in [lastSeen] only; every
    other position of the collection, and so every other card, is as
    before. *)
Theorem updateLastSeen_frame cards cn ls c :
  Db.getCard cards cn = Some c →
  let c' := {| cardNumber := cardNumber c; lastSeen := Some ls;
               status := status c; reported := reported c;
               history := history c |} in
  ∃ i, cards !! i = Some c ∧
       Db.updateLastSeen cards cn ls = <[i := c']> cards ∧
       Db.getCard (Db.updateLastSeen cards cn ls) cn = Some c' ∧
       length (Db.updateLastSeen cards cn ls) = length cards ∧
       (∀ j, j ≠ i → Db.updateLastSeen cards cn ls !! j = cards !! j) ∧
       (∀ cn', cn' ≠ cn →
               Db.getCard (Db.updateLastSeen cards cn ls) cn'
               = Db.getCard cards cn').
Proof.
  intros Hc c'.
  pose proof (DbFacts.getCard_cardNumber _ _ _ Hc) as Hcn.
  assert (Hupd : Db.updateLastSeen cards cn ls = Db.saveCard cards c').
  { unfold Db.updateLastSeen. by rewrite Hc. }
  destruct (DbFacts.saveCard_existing cards c' c) as (i & Hi & Hsave).
  { cbn. by rewrite Hcn. }
  exists i. rewrite Hupd, Hsave. split_and!; [done|done| | | |].
  - rewrite <- Hsave, <- Hcn. apply (DbFacts.getCard_saveCard cards c').
  - apply length_insert.
  - intros j Hj. by apply list_lookup_insert_ne.
  - intros cn' Hne. rewrite <- Hsave. apply DbFacts.getCard_saveCard_ne.
    cbn. by rewrite Hcn.
Qed.

(** * The action handler *)

(** The cases of the [switch]. *)
Lemma apply_action_recognized card act :
  recognized act →
  ∃ card' msg,
    Server.apply_action card act = Some (card', msg) ∧
    cardNumber card' = cardNumber card ∧
    lastSeen card' = lastSeen card ∧
    history card' = history card ∧
    (act = "continue" → card' = card) ∧
    (act = "report" → reported card' = true ∧ status card' = status card) ∧
    (act = "freeze" → status card' = frozen ∧ reported card' = reported card) ∧
    (act = "block" → status card' = blocked ∧ reported card' = reported card).
Proof.
  intros [->|[->|[->| ->]]]; eexists _, _; (split; [reflexivity|]);
    cbn; split_and!; done.
Qed.

Lemma apply_action_unknown card act :
  ¬ recognized act → Server.apply_action card act = None.
Proof.
  intros Hn. unfold Server.apply_action, recognized in *.
  repeat case_decide; tauto.
Qed.

Lemma apply_action_Some card act card' msg :
  Server.apply_action card act = Some (card', msg) →
  cardNumber card' = cardNumber card ∧ history card' = history card.
Proof.
  unfold Server.apply_action. repeat case_decide; naive_solver.
Qed.

(** An action the handler carries out: the store it leaves. *)
Lemma action_eq cards cn act io card' msg :
  cn ≠ "" → act ≠ "" →
  Server.apply_action (prior cards cn) act = Some (card', msg) →
  Server.action cards cn act io =
  (Db.addHistory (Db.saveCard cards card') cn (action_entry act io),
   Server.ActionOk msg
     {| Server.brief_cardNumber := Server.mask cn;
        Server.brief_status := status card';
        Server.brief_reported := reported card' |}).
Proof.
  intros Hcn Hact Happ. unfold Server.action.
  rewrite (bool_decide_eq_false_2 _ Hcn), (bool_decide_eq_false_2 _ Hact).
  cbn [orb]. fold (prior cards cn). by rewrite Happ.
Qed.

(** C4: an action identifier that is none of continue, report, freeze and
    block gets an error response (status 400), and the store is left as it
    was: no record changes and no history entry is written. *)
Theorem unknown_action_rejected cards cn act io :
  ¬ recognized act →
  ∃ err, Server.action cards cn act io = (cards, Server.Error 400 err).
Proof.
  intros Hn. unfold Server.action.
  destruct (bool_decide (cn = "") || bool_decide (act = "")); [by eexists|].
  rewrite (apply_action_unknown _ _ Hn). by eexists.
Qed.

(** C6: a recognized action on a card number is carried out and answered
    with success; it puts one entry, naming the action, at the front of the
    card's history (cut to 200 entries) and leaves [lastSeen] and every other
    card alone; continue changes neither status nor reported flag, report
    sets the flag and keeps the status, freeze sets the status to frozen and
    block sets it to blocked. *)
Theorem recognized_action_effect cards cn act io :
  cn ≠ "" →
  recognized act →
  let card := prior cards cn in
  let cards' := (Server.action cards cn act io).1 in
  ∃ card' msg brief,
    (Server.action cards cn act io).2 = Server.ActionOk msg brief ∧
    Db.getCard cards' cn = Some card' ∧
    history card' = take 200 (action_entry act io :: history card) ∧
    ev_action (action_entry act io) = act ∧
    lastSeen card' = lastSeen card ∧
    (act = "continue" →
     status card' = status card ∧ reported card' = reported card) ∧
    (act = "report" → reported card' = true ∧ status card' = status card) ∧
    (act = "freeze" → status card' = frozen ∧ reported card' = reported card) ∧
    (act = "block" → status card' = blocked ∧ reported card' = reported card) ∧
    (∀ cn', cn' ≠ cn → Db.getCard cards' cn' = Db.getCard cards cn').
Proof.
  intros Hcn Hrec card cards'.
  assert (Hact : act ≠ "") by (by destruct Hrec as [->|[->|[->| ->]]]).
  destruct (apply_action_recognized card act Hrec)
    as (c1 & msg & Happ & Hnum & Hls & Hh & Hcont & Hrep & Hfrz & Hblk).
  assert (Hc1 : cardNumber c1 = cn).
  { rewrite Hnum. apply DbFacts.cardNumber_default. }
  assert (Hsaved : Db.getCard (Db.saveCard cards c1) cn = Some c1).
  { rewrite <- Hc1. apply DbFacts.getCard_saveCard. }
  subst cards'. rewrite (action_eq cards cn act io c1 msg Hcn Hact Happ).
  cbn [fst snd]. eexists _, _, _. split; [reflexivity|].
  rewrite DbFacts.getCard_addHistory, Hsaved, DbFacts.pushHistory_take.
  split; [reflexivity|]. cbn [history lastSeen status reported].
  change (default (newCard cn) (Some c1)) with c1. rewrite Hh.
  split_and!; try done.
  - intros ->. by rewrite (Hcont eq_refl).
  - intros cn' Hne. rewrite DbFacts.getCard_addHistory_ne by done.
    apply DbFacts.getCard_saveCard_ne. by rewrite Hc1.
Qed.

(** * Every request keeps the histories capped *)

(** From a store whose histories have at most 200 entries, every run of
    check and action requests leaves a store whose histories have at most
    200 entries. *)
Lemma serve_capped dist rs : ∀ cards,
  capped cards → capped (serve dist cards rs).
Proof.
  induction rs as [|r rs IH]; intros cards Hc; [done|].
  cbn. apply IH. destruct r as [req io|cn act io].
  - destruct (decide (Server.q_cardNumber req = "")) as [He|Hne].
    + unfold Server.check. by rewrite decide_True.
    + pose proof (check_eq dist cards req io Hne) as Heq. cbn zeta in Heq.
      rewrite Heq. cbn [fst].
      by apply DbFacts.updateLastSeen_capped, DbFacts.addHistory_capped.
  - unfold Server.action.
    destruct (bool_decide (cn = "") || bool_decide (act = "")); [done|].
    destruct (Server.apply_action _ act) as [[c m]|] eqn:Happ; [|done].
    cbn [fst]. apply DbFacts.addHistory_capped.
    apply DbFacts.saveCard_Forall; [done|].
    apply apply_action_Some in Happ as [_ ->].
    by apply DbFacts.default_capped.
Qed.

(** * The theorems at concrete inputs *)

Lemma pan_not_empty : Samples.pan ≠ "".
Proof. discriminate. Defined.

Lemma check_risk_thresholds_witness :
  ∃ view details,
    (Server.check grid_distance Samples.seen Samples.north_1h Samples.io).2
    = Server.CheckOk view HIGH details.
Proof.
  destruct (check_risk_thresholds grid_distance Samples.seen Samples.north_1h
              Samples.io Samples.origin (10 # 1)%Q (0 # 1)%Q
              pan_not_empty eq_refl eq_refl)
    as (raw & view & details & _ & _ & Hactive & Hhigh & _).
  exists view, details. rewrite (Hactive eq_refl). f_equal. apply Hhigh.
  split; eexists; (split; [reflexivity|]); reflexivity.
Defined.

Lemma check_status_override_witness :
  ∃ view details,
    (Server.check grid_distance Samples.seen_blocked Samples.after_54s
       Samples.io).2
    = Server.CheckOk view BLOCKED details ∧
    Server.distance_km details = Some (Num (0 # 100)) ∧
    Server.hours_since_last details = Some (Num (1 # 100)) ∧
    Server.note details = None.
Proof.
  destruct (check_status_override grid_distance Samples.seen_blocked
              Samples.after_54s Samples.io
              {| cardNumber := Samples.pan; lastSeen := Some Samples.origin;
                 status := blocked; reported := false;
                 history := history_of Samples.seen_blocked Samples.pan |}
              pan_not_empty eq_refl)
    as (view & risk & details & Hresp & Hblocked & _ & _ & Hdetails).
  exists view, details. rewrite Hresp, (Hblocked eq_refl). split; [done|].
  apply (Hdetails Samples.origin (0 # 1)%Q (0 # 1)%Q eq_refl eq_refl).
Defined.

Lemma history_capped_newest_first_witness :
  length (history_of (addHistories [] (Samples.events 200)) Samples.pan)
  = 200%nat ∧
  history_of
    (Db.addHistory (addHistories [] (Samples.events 200)) Samples.pan
       Samples.newest) Samples.pan
  = Samples.newest
    :: take 199 (history_of (addHistories [] (Samples.events 200))
                   Samples.pan).
Proof.
  destruct (history_capped_newest_first [] (Samples.events 200) Samples.pan
              Samples.newest (Forall_nil_2 _))
    as (_ & _ & _ & Htake & _).
  split; [vm_compute; reflexivity|exact Htake].
Defined.

Lemma unknown_action_rejected_witness :
  ∃ err,
    Server.action Samples.seen Samples.pan "unfreeze" Samples.aio
    = (Samples.seen, Server.Error 400 err).
Proof.
  apply unknown_action_rejected.
  intros [H|[H|[H|H]]]; discriminate H.
Defined.

Lemma check_no_comparable_location_witness :
  ∃ view,
    (Server.check grid_distance [] Samples.at_origin Samples.io).2
    = Server.CheckOk view LOW
        {| Server.distance_km := None; Server.hours_since_last := None;
           Server.note := Some Server.no_previous_location |}.
Proof.
  exact (check_no_comparable_location grid_distance [] Samples.at_origin
           Samples.io pan_not_empty (or_introl eq_refl)).
Defined.

Lemma recognized_action_effect_witness :
  ∃ card',
    Db.getCard (Server.action Samples.seen Samples.pan "freeze" Samples.aio).1
      Samples.pan = Some card' ∧
    status card' = frozen ∧
    lastSeen card' = Some Samples.origin.
Proof.
  destruct (recognized_action_effect Samples.seen Samples.pan "freeze"
              Samples.aio pan_not_empty
              (or_intror (or_intror (or_introl eq_refl))))
    as (card' & msg & brief & _ & Hget & _ & _ & Hls & _ & _ & Hfreeze & _).
  exists card'. split; [exact Hget|]. split; [apply (Hfreeze eq_refl)|].
  exact Hls.
Defined.

Lemma check_replaces_lastSeen_witness :
  lastSeen <$>
    Db.getCard
      (Server.check grid_distance Samples.seen_later Samples.at_origin
         Samples.io).1 Samples.pan
  = Some (Some Samples.origin).
Proof.
  exact (check_replaces_lastSeen grid_distance Samples.seen_later
           Samples.at_origin Samples.io pan_not_empty).
Defined.

Lemma check_blocked_frozen_mutates_witness :
  ∃ card',
    Db.getCard
      (Server.check grid_distance Samples.seen_blocked Samples.north_1h
         Samples.io).1 Samples.pan = Some card' ∧
    ev_risk <$> head (history card') = Some (Some BLOCKED) ∧
    lastSeen card' = Some (check_location Samples.north_1h Samples.io).
Proof.
  destruct (check_blocked_frozen_mutates grid_distance Samples.seen_blocked
              Samples.north_1h Samples.io
              {| cardNumber := Samples.pan; lastSeen := Some Samples.origin;
                 status := blocked; reported := false;
                 history := history_of Samples.seen_blocked Samples.pan |}
              pan_not_empty eq_refl (or_introl eq_refl))
    as (card' & Hget & Hhist & _ & _ & Hls & _).
  exists card'. split; [exact Hget|]. split; [|exact Hls].
  rewrite Hhist. reflexivity.
Defined.

Lemma updateLastSeen_frame_witness :
  ∃ i,
    Samples.seen_later !! i
    = Some (prior Samples.seen_later Samples.pan) ∧
    Db.updateLastSeen Samples.seen_later Samples.pan Samples.origin
    = <[i := {| cardNumber := Samples.pan; lastSeen := Some Samples.origin;
                status := active; reported := false;
                history := history_of Samples.seen_later Samples.pan |}]>
        Samples.seen_later.
Proof.
  destruct (updateLastSeen_frame Samples.seen_later Samples.pan
              Samples.origin (prior Samples.seen_later Samples.pan) eq_refl)
    as (i & Hi & Hupd & _).
  exists i. split; [exact Hi|exact Hupd].
Defined.

(** * Where the code differs from what is claimed *)

(** C5 at a card blocked before its first check: it has no [lastSeen], and
    the check answers BLOCKED, not LOW. *)
Lemma check_unseen_blocked_not_low :
  lastSeen (prior Samples.unseen_blocked Samples.pan) = None ∧
  (∃ view details,
     (Server.check grid_distance Samples.unseen_blocked Samples.at_origin
        Samples.io).2 = Server.CheckOk view BLOCKED details) ∧
  ¬ (∃ view details,
       (Server.check grid_distance Samples.unseen_blocked Samples.at_origin
          Samples.io).2 = Server.CheckOk view LOW details).
Proof.
  split; [reflexivity|]. split; [by eexists _, _|].
  intros (view & details & H). vm_compute in H. discriminate H.
Qed.

(** C7 at a check that is an hour older than the stored [lastSeen]: it
    replaces [lastSeen] all the same. *)
Lemma older_check_replaces_lastSeen :
  loc_timestamp <$> lastSeen (prior Samples.seen_later Samples.pan)
  = Some (Instant 3600000) ∧
  check_now Samples.at_origin Samples.io = Instant 0 ∧
  ¬ (3600000 < 0) ∧
  loc_timestamp <$>
    lastSeen
      (prior
         (Server.check grid_distance Samples.seen_later Samples.at_origin
            Samples.io).1 Samples.pan)
  = Some (Instant 0).
Proof. split_and!; [reflexivity|reflexivity|lia|reflexivity]. Qed.

(** C8 at the store after one check: [getAllCards], and the listing of the
    cards that passes it on, give the card number as it is, which is not a
    masked form. *)
Lemma getAllCards_unmasked :
  cardNumber <$> Db.getAllCards Samples.seen = ["4111 1111 1111 1234"] ∧
  cardNumber <$> Server.cards_listing Samples.seen = ["4111 1111 1111 1234"] ∧
  Server.mask "4111 1111 1111 1234" = "**** **** **** 1234" ∧
  ¬ masked "4111 1111 1111 1234".
Proof.
  split_and!; [reflexivity..|].
  intros [H|[H|(t & _ & H)]]; discriminate H.
Qed.

Lemma serve_capped_witness :
  capped
    (serve grid_distance []
       [CheckRequest Samples.at_origin Samples.io;
        ActionRequest Samples.pan "block" Samples.aio;
        CheckRequest Samples.north_1h Samples.io]).
Proof. apply serve_capped. apply Forall_nil_2. Defined.

(** * db.js on the file system *)

Module DiskFacts.

Lemma readDB_collection fs cards :
  collection fs = Some cards →
  Disk.readDB fs = (Disk.File (Disk.Collection cards), Some cards).
Proof. destruct fs as [| |[c|]]; cbn; by intros [= <-]. Qed.

Lemma bind_readDB {A : Type} (k : list Card → M Disk.Fs A) fs cards :
  collection fs = Some cards →
  (Disk.readDB ≫= k) fs = k cards (Disk.File (Disk.Collection cards)).
Proof.
  intros Hc. unfold mbind, M_bind. by rewrite (readDB_collection _ _ Hc).
Qed.

Lemma getCard_collection fs cards cn :
  collection fs = Some cards →
  Disk.getCard cn fs
  = (Disk.File (Disk.Collection cards), Some (Db.getCard cards cn)).
Proof. intros Hc. unfold Disk.getCard. by rewrite (bind_readDB _ _ _ Hc). Qed.

Lemma saveCard_collection fs cards card :
  collection fs = Some cards →
  Disk.saveCard card fs
  = (Disk.File (Disk.Collection (Db.saveCard cards card)), Some tt).
Proof. intros Hc. unfold Disk.saveCard. by rewrite (bind_readDB _ _ _ Hc). Qed.

Lemma addHistory_collection fs cards cn entry :
  collection fs = Some cards →
  Disk.addHistory cn entry fs
  = (Disk.File (Disk.Collection (Db.addHistory cards cn entry)), Some tt).
Proof.
  intros Hc. unfold Disk.addHistory, mbind, M_bind.
  rewrite (getCard_collection _ _ _ Hc).
  by rewrite (saveCard_collection _ cards).
Qed.

Lemma updateLastSeen_collection fs cards cn ls :
  collection fs = Some cards →
  Disk.updateLastSeen cn ls fs
  = (Disk.File (Disk.Collection (Db.updateLastSeen cards cn ls)), Some tt).
Proof.
  intros Hc. unfold Disk.updateLastSeen, mbind, M_bind.
  rewrite (getCard_collection _ _ _ Hc).
  by rewrite (saveCard_collection _ cards).
Qed.

End DiskFacts.

(** On a file system whose db.json holds a collection, or has none yet
    (which counts as the empty collection), every function of db.js returns
    what the function on the collection returns, never throws, and leaves
    db.json holding the collection that function gives; so db.json exists
    after any call, a read included. *)
Theorem disk_agrees_with_collection fs cards cn card entry ls :
  collection fs = Some cards →
  let file c := Disk.File (Disk.Collection c) in
  Disk.readDB fs = (file cards, Some cards) ∧
  Disk.getAllCards fs = (file cards, Some (Db.getAllCards cards)) ∧
  Disk.getCard cn fs = (file cards, Some (Db.getCard cards cn)) ∧
  Disk.saveCard card fs = (file (Db.saveCard cards card), Some tt) ∧
  Disk.addHistory cn entry fs
  = (file (Db.addHistory cards cn entry), Some tt) ∧
  Disk.updateLastSeen cn ls fs
  = (file (Db.updateLastSeen cards cn ls), Some tt).
Proof.
  intros Hc file. split_and!.
  - by apply DiskFacts.readDB_collection.
  - by apply DiskFacts.readDB_collection.
  - by apply DiskFacts.getCard_collection.
  - by apply DiskFacts.saveCard_collection.
  - by apply DiskFacts.addHistory_collection.
  - by apply DiskFacts.updateLastSeen_collection.
Qed.

Lemma disk_agrees_with_collection_witness :
  Disk.getCard Samples.pan Disk.NoDir
  = (Disk.File (Disk.Collection []), Some None) ∧
  Disk.addHistory Samples.pan Samples.newest Disk.NoDir
  = (Disk.File (Disk.Collection (Db.addHistory [] Samples.pan Samples.newest)),
     Some tt).
Proof.
  destruct (disk_agrees_with_collection Disk.NoDir [] Samples.pan
              (newCard Samples.pan) Samples.newest Samples.origin eq_refl)
    as (_ & _ & Hget & _ & Hadd & _).
  split; [exact Hget|exact Hadd].
Defined.

(** When db.json does not parse, every function of db.js throws and the
    file system is left as it was: nothing is repaired and nothing is
    written. *)
Theorem disk_malformed_throws cn card entry ls :
  let fs := Disk.File Disk.Malformed in
  Disk.readDB fs = (fs, None) ∧
  Disk.getAllCards fs = (fs, None) ∧
  Disk.getCard cn fs = (fs, None) ∧
  Disk.saveCard card fs = (fs, None) ∧
  Disk.addHistory cn entry fs = (fs, None) ∧
  Disk.updateLastSeen cn ls fs = (fs, None).
Proof. by split_and!. Qed.

(** [ensure] makes the directory and an empty db.json where they are
    missing and leaves an existing db.json alone, whatever it holds; a
    second call changes nothing, and the collection db.js sees is the same
    before and after. *)
Theorem ensure_bootstrap fs :
  Disk.ensure (Disk.ensure fs) = Disk.ensure fs ∧
  (∃ c, Disk.ensure fs = Disk.File c) ∧
  (∀ c, fs = Disk.File c → Disk.ensure fs = fs) ∧
  collection (Disk.ensure fs) = collection fs ∧
  Disk.readDB (Disk.ensure fs) = Disk.readDB fs.
Proof.
  destruct fs as [| |c]; split_and!; try done; try by eexists.
  all: by intros c [=].
Qed.

(** * The handlers with their effects *)

Lemma bind_db {A B : Type} (m : M Disk.Fs A) (k : A → M App.World B)
    w fs a :
  m (App.disk w) = (fs, Some a) →
  (App.db m ≫= k) w = k a {| App.disk := fs; App.outbox := App.outbox w |}.
Proof. intros Hm. unfold mbind, M_bind, App.db. by rewrite Hm. Qed.

Lemma bind_db_throw {A B : Type} (m : M Disk.Fs A) (k : A → M App.World B)
    w fs :
  m (App.disk w) = (fs, None) →
  (App.db m ≫= k) w
  = ({| App.disk := fs; App.outbox := App.outbox w |}, None).
Proof. intros Hm. unfold mbind, M_bind, App.db. by rewrite Hm. Qed.

Section AppFacts.

Variable dist : coord → coord → coord → coord → number.

(** The check handler on a world whose db.json holds a collection. *)
Lemma app_check_collection w cards req io :
  collection (App.disk w) = Some cards →
  Server.q_cardNumber req ≠ "" →
  App.check dist req io w
  = (world_of (Server.check dist cards req io).1
       (App.outbox w
        ++ alerts_of_check req io (Server.check dist cards req io).2),
     (Server.check dist cards req io).2).
Proof.
  intros Hc Hcn.
  pose proof (check_eq dist cards req io Hcn) as Heq. cbn zeta in Heq.
  rewrite Heq. cbn [fst snd]. clear Heq.
  unfold App.check, App.try_catch. rewrite decide_False by done.
  unfold check_entry, check_location, check_coords, check_now, prior.
  destruct (Server.resolve_coords _ _ _) as [curLat curLon]. cbn [fst snd].
  rewrite (bind_db _ _ _ _ _ (DiskFacts.getCard_collection _ _ _ Hc)).
  destruct (Server.compute_risk dist _ curLat curLon _)
    as [risk details]. cbn [fst snd].
  erewrite bind_db by (by apply DiskFacts.addHistory_collection).
  erewrite bind_db by (by apply DiskFacts.updateLastSeen_collection).
  cbn [App.disk App.outbox].
  set (risk' := Server.status_overrides _ risk).
  set (final := Db.updateLastSeen _ _ _).
  assert (Hsaved : ∃ saved,
    Db.getCard final (Server.q_cardNumber req) = Some saved ∧
    status saved
    = status (default (newCard (Server.q_cardNumber req))
                (Db.getCard cards (Server.q_cardNumber req))) ∧
    reported saved
    = reported (default (newCard (Server.q_cardNumber req))
                  (Db.getCard cards (Server.q_cardNumber req))) ∧
    lastSeen saved
    = Some {| loc_lat := curLat; loc_lon := curLon;
              loc_timestamp :=
                default (Instant (Server.io_wall io)) (Server.q_ts req) |}).
  { subst final. eexists. split.
    - rewrite DbFacts.getCard_updateLastSeen. reflexivity.
    - by rewrite DbFacts.getCard_addHistory. }
  destruct Hsaved as (saved & Hget & Hst & Hrep & Hls).
  unfold alerts_of_check, check_now.
  destruct (decide (risk' = HIGH)) as [Hhigh|Hlow].
  - rewrite Hhigh. unfold mbind at 1, M_bind at 1. cbn [App.alert].
    cbn [App.disk App.outbox].
    erewrite bind_db
      by (cbn [App.disk]; by apply DiskFacts.getCard_collection).
    rewrite Hget. cbn. by rewrite Hst, Hrep, Hls.
  - unfold mbind at 1, M_bind at 1. cbn [mret M_ret].
    erewrite bind_db
      by (cbn [App.disk]; by apply DiskFacts.getCard_collection).
    rewrite Hget. cbn. rewrite Hst, Hrep, Hls.
    destruct risk'; try done; by rewrite app_nil_r.
Qed.

(** With a card number, and db.json holding a collection or yet to be made,
    the check handler leaves db.json holding what the handler on the
    collection leaves, answers what that handler answers, and hands over
    one alert when the answer's risk is HIGH and none otherwise. *)
Theorem app_check_agrees w cards req io :
  collection (App.disk w) = Some cards →
  Server.q_cardNumber req ≠ "" →
  App.check dist req io w
  = (world_of (Server.check dist cards req io).1
       (App.outbox w
        ++ alerts_of_check req io (Server.check dist cards req io).2),
     (Server.check dist cards req io).2).
Proof. apply app_check_collection. Qed.

(** A check on a card that is blocked or frozen hands over no alert,
    whatever distance and time would give; and a check hands over an alert
    exactly when it answers HIGH, in which case the card is active and the
    alert names it by its mask. *)
Theorem check_alert_only_for_high w cards req io :
  collection (App.disk w) = Some cards →
  Server.q_cardNumber req ≠ "" →
  let w' := (App.check dist req io w).1 in
  let r := (App.check dist req io w).2 in
  (status (prior cards (Server.q_cardNumber req)) ≠ active →
   App.outbox w' = App.outbox w) ∧
  ((∃ view details, r = Server.CheckOk view HIGH details) ∨
   App.outbox w' = App.outbox w) ∧
  (∀ view details,
     r = Server.CheckOk view HIGH details →
     status (prior cards (Server.q_cardNumber req)) = active ∧
     ∃ a, App.outbox w' = (App.outbox w ++ [a])%list ∧
          App.subject a
          = "ALERT: HIGH risk for card "
            ++ Server.mask (Server.q_cardNumber req) ∧
          App.text a
          = [App.Lit "Detected HIGH risk for card ";
             App.Lit (Server.mask (Server.q_cardNumber req));
             App.Lit " at "; App.ShowTime (check_now req io);
             App.Lit ". Details: "; App.ShowDetails details]).
Proof.
  intros Hc Hcn w' r. subst w' r.
  rewrite (app_check_collection w cards req io Hc Hcn). cbn [fst snd world_of].
  cbn [App.outbox].
  pose proof (check_eq dist cards req io Hcn) as Heq. cbn zeta in Heq.
  rewrite Heq. cbn [fst snd]. clear Heq. rewrite status_overrides_eq.
  unfold alerts_of_check.
  destruct (status (prior cards (Server.q_cardNumber req))) eqn:Hst.
  - split; [done|].
    destruct (Server.compute_risk dist _ _ _ _).1 eqn:Hrisk.
    all: split; [first [by right; rewrite app_nil_r | by left; eexists _, _]|].
    all: intros view details [= <- <-]; try done.
    split; [done|]. by eexists.
  - split; [intros _; by rewrite app_nil_r|].
    split; [right; by rewrite app_nil_r|]. by intros view details [=].
  - split; [intros _; by rewrite app_nil_r|].
    split; [right; by rewrite app_nil_r|]. by intros view details [=].
Qed.

(** When db.json does not parse, a check with a card number answers 500
    and the world is left as it was: no file is written and no alert is
    handed over. *)
Theorem app_check_malformed w req io :
  App.disk w = Disk.File Disk.Malformed →
  Server.q_cardNumber req ≠ "" →
  App.check dist req io w = (w, Server.Error 500 "server error").
Proof.
  intros Hd Hcn. unfold App.check, App.try_catch.
  rewrite decide_False by done.
  destruct (Server.resolve_coords _ _ _) as [curLat curLon].
  erewrite bind_db_throw by (rewrite Hd; reflexivity).
  destruct w as [fs sent]. cbn in Hd |- *. by subst fs.
Qed.

End AppFacts.

Lemma app_check_agrees_witness :
  App.check grid_distance Samples.north_1h Samples.io (world_of Samples.seen [])
  = (world_of (Server.check grid_distance Samples.seen Samples.north_1h Samples.io).1
       ([] ++ alerts_of_check Samples.north_1h Samples.io
                (Server.check grid_distance Samples.seen Samples.north_1h
                   Samples.io).2),
     (Server.check grid_distance Samples.seen Samples.north_1h Samples.io).2).
Proof.
  exact (app_check_agrees grid_distance (world_of Samples.seen []) Samples.seen
           Samples.north_1h Samples.io eq_refl pan_not_empty).
Defined.

Lemma check_alert_only_for_high_witness :
  App.outbox
    (App.check grid_distance Samples.north_1h Samples.io
       (world_of Samples.seen_blocked [])).1 = [].
Proof.
  destruct (check_alert_only_for_high grid_distance
              (world_of Samples.seen_blocked [])
              Samples.seen_blocked Samples.north_1h Samples.io eq_refl
              pan_not_empty) as (Hquiet & _).
  apply Hquiet. discriminate.
Defined.

Lemma app_check_malformed_witness :
  App.check grid_distance Samples.at_origin Samples.io
    {| App.disk := Disk.File Disk.Malformed; App.outbox := [] |}
  = ({| App.disk := Disk.File Disk.Malformed; App.outbox := [] |},
     Server.Error 500 "server error").
Proof.
  exact (app_check_malformed grid_distance
           {| App.disk := Disk.File Disk.Malformed; App.outbox := [] |}
           Samples.at_origin Samples.io eq_refl pan_not_empty).
Defined.

(** With a card number and an action, and db.json holding a collection or
    yet to be made, the action handler leaves db.json holding what the
    handler on the collection leaves and answers what that handler answers;
    it hands over one alert when it carries the action out and none when it
    rejects it.  db.json is made even when the action is rejected as
    unknown. *)
Theorem app_action_agrees w cards cn act io mail_wall :
  collection (App.disk w) = Some cards →
  cn ≠ "" →
  act ≠ "" →
  App.action cn act io mail_wall w
  = (world_of (Server.action cards cn act io).1
       (App.outbox w
        ++ alerts_of_action cn act mail_wall
             (Server.action cards cn act io).2),
     (Server.action cards cn act io).2).
Proof.
  intros Hc Hcn Hact. unfold App.action, App.try_catch, Server.action.
  rewrite (bool_decide_eq_false_2 _ Hcn), (bool_decide_eq_false_2 _ Hact).
  cbn [orb].
  rewrite (bind_db _ _ _ _ _ (DiskFacts.getCard_collection _ _ _ Hc)).
  destruct (Server.apply_action _ act) as [[card message]|].
  - erewrite bind_db by (by apply DiskFacts.saveCard_collection).
    erewrite bind_db by (by apply DiskFacts.addHistory_collection).
    reflexivity.
  - cbn. by rewrite app_nil_r.
Qed.

Lemma app_action_agrees_witness :
  App.action Samples.pan "hold" Samples.aio 0
    {| App.disk := Disk.NoDir; App.outbox := [] |}
  = (world_of [] [], Server.Error 400 "unknown action").
Proof.
  exact (app_action_agrees {| App.disk := Disk.NoDir; App.outbox := [] |}
           [] Samples.pan "hold" Samples.aio 0 eq_refl pan_not_empty
           ltac:(discriminate)).
Defined.

(** When db.json does not parse, an action with a card number answers 500,
    also when the action is unknown, and the world is left as it was. *)
Theorem app_action_malformed w cn act io mail_wall :
  App.disk w = Disk.File Disk.Malformed →
  cn ≠ "" →
  act ≠ "" →
  App.action cn act io mail_wall w = (w, Server.Error 500 "server error").
Proof.
  intros Hd Hcn Hact. unfold App.action, App.try_catch.
  rewrite (bool_decide_eq_false_2 _ Hcn), (bool_decide_eq_false_2 _ Hact).
  cbn [orb]. erewrite bind_db_throw by (rewrite Hd; reflexivity).
  destruct w as [fs sent]. cbn in Hd |- *. by subst fs.
Qed.

Lemma app_action_malformed_witness :
  App.action Samples.pan "hold" Samples.aio 0
    {| App.disk := Disk.File Disk.Malformed; App.outbox := [] |}
  = ({| App.disk := Disk.File Disk.Malformed; App.outbox := [] |},
     Server.Error 500 "server error").
Proof.
  exact (app_action_malformed
           {| App.disk := Disk.File Disk.Malformed; App.outbox := [] |}
           Samples.pan "hold" Samples.aio 0 eq_refl pan_not_empty
           ltac:(discriminate)).
Defined.

(** A request that lacks what its handler requires is answered 400 before
    db.js is called: the world is left as it was, so a missing directory or
    db.json stays missing, and a db.json that does not parse goes
    unnoticed. *)
Theorem validation_touches_nothing dist w req io cn act aio mail_wall :
  (Server.q_cardNumber req = "" →
   App.check dist req io w
   = (w, Server.Error 400 "cardNumber is required")) ∧
  (cn = "" ∨ act = "" →
   App.action cn act aio mail_wall w
   = (w, Server.Error 400 "cardNumber and action required")).
Proof.
  split.
  - intros Hcn. unfold App.check, App.try_catch. by rewrite decide_True.
  - intros Hmiss. unfold App.action, App.try_catch.
    assert (bool_decide (cn = "") || bool_decide (act = "") = true) as ->.
    { destruct Hmiss as [-> | ->]; [done|]. apply orb_true_r. }
    done.
Qed.

(** The listing of the cards gives the collection of db.json as it is and
    makes db.json when it is missing; when db.json does not parse it throws
    (the handler has no [try]) and leaves the world as it was. *)
Theorem app_cards_listing w :
  match collection (App.disk w) with
  | Some cards => App.cards w = (world_of cards (App.outbox w), Some cards)
  | None => App.cards w = (w, None)
  end.
Proof.
  destruct w as [[| |[cards|]] sent]; reflexivity.
Qed.

(** * How the store functions compose *)

Lemma cardNumbers_saveCard cards card :
  cardNumbers (Db.saveCard cards card)
  = (cardNumbers cards
     ++ if decide (cardNumber card ∈ cardNumbers cards) then []
        else [cardNumber card])%list.
Proof.
  unfold cardNumbers. induction cards as [|d cards IH].
  - rewrite DbFacts.saveCard_nil. cbn. rewrite decide_False; [done|].
    apply not_elem_of_nil.
  - rewrite DbFacts.saveCard_cons.
    destruct (decide (cardNumber d = cardNumber card)) as [Hd|Hd].
    + cbn. rewrite Hd. rewrite decide_True by (apply elem_of_cons; by left).
      by rewrite app_nil_r.
    + cbn. rewrite IH. f_equal.
      destruct (decide (cardNumber card ∈ cardNumber <$> cards)) as [Hin|Hin].
      * by rewrite decide_True by (apply elem_of_cons; by right).
      * rewrite decide_False; [done|].
        intros [?|?]%elem_of_cons; [congruence|done].
Qed.

Lemma saveCard_saveCard cards c1 c2 :
  cardNumber c1 = cardNumber c2 →
  Db.saveCard (Db.saveCard cards c1) c2 = Db.saveCard cards c2.
Proof.
  intros Hnum. induction cards as [|d cards IH].
  - rewrite !DbFacts.saveCard_nil, DbFacts.saveCard_cons.
    by rewrite decide_True.
  - rewrite (DbFacts.saveCard_cons d cards c1). case_decide as Hd.
    + rewrite !DbFacts.saveCard_cons. rewrite !decide_True; congruence.
    + rewrite !DbFacts.saveCard_cons. rewrite !decide_False by congruence.
      by rewrite IH.
Qed.

(** Saving a card twice under one number keeps the second record only, in
    the place the first took. *)
Theorem saveCard_overwrites cards c1 c2 :
  cardNumber c1 = cardNumber c2 →
  Db.saveCard (Db.saveCard cards c1) c2 = Db.saveCard cards c2.
Proof. apply saveCard_saveCard. Qed.

Lemma saveCard_overwrites_witness :
  Db.saveCard (Db.saveCard Samples.seen (newCard Samples.pan))
    (prior Samples.seen_later Samples.pan)
  = Db.saveCard Samples.seen (prior Samples.seen_later Samples.pan).
Proof.
  exact (saveCard_overwrites Samples.seen (newCard Samples.pan)
           (prior Samples.seen_later Samples.pan) eq_refl).
Defined.

(** [addHistory] and [updateLastSeen] on one card number give the same
    collection in either order, whether the card is stored or not. *)
Theorem addHistory_updateLastSeen_commute cards cn entry ls :
  Db.updateLastSeen (Db.addHistory cards cn entry) cn ls
  = Db.addHistory (Db.updateLastSeen cards cn ls) cn entry.
Proof.
  unfold Db.updateLastSeen at 1. rewrite DbFacts.getCard_addHistory.
  unfold Db.addHistory at 2. rewrite DbFacts.getCard_updateLastSeen.
  cbn [default from_option id cardNumber lastSeen status reported history].
  unfold Db.addHistory, Db.updateLastSeen.
  by rewrite !saveCard_saveCard by apply DbFacts.cardNumber_default.
Qed.

(** Of two [updateLastSeen] calls on one card number the second wins: the
    collection is as if the first had not been made. *)
Theorem updateLastSeen_last_wins cards cn ls1 ls2 :
  Db.updateLastSeen (Db.updateLastSeen cards cn ls1) cn ls2
  = Db.updateLastSeen cards cn ls2.
Proof.
  unfold Db.updateLastSeen at 1. rewrite DbFacts.getCard_updateLastSeen.
  cbn [default from_option id cardNumber lastSeen status reported history].
  unfold Db.updateLastSeen.
  rewrite saveCard_saveCard by apply DbFacts.cardNumber_default.
  by rewrite DbFacts.cardNumber_default.
Qed.

Lemma take_app_take {A : Type} (n : nat) (l k : list A) :
  take n (l ++ take n k) = take n (l ++ k).
Proof.
  rewrite !take_app, take_take. do 2 f_equal. lia.
Qed.

(** After a run of [addHistory] calls the history of a card the run has
    entries for is those entries, latest first, followed by the history the
    card had, cut to 200 entries; the history of a card the run has no entry
    for is as it was. *)
Theorem addHistories_history es : ∀ cards cn,
  history_of (addHistories cards es) cn
  = match entries_for cn es with
    | [] => history_of cards cn
    | _ => take 200 (reverse (entries_for cn es) ++ history_of cards cn)
    end.
Proof.
  induction es as [|[c e] es IH]; intros cards cn; [done|].
  change (addHistories cards ((c, e) :: es))
    with (addHistories (Db.addHistory cards c e) es).
  rewrite IH. unfold entries_for. rewrite filter_cons. cbn [fst].
  destruct (decide (c = cn)) as [->|Hne].
  - cbn [fmap list_fmap snd]. rewrite history_of_addHistory.
    fold (entries_for cn es). rewrite reverse_cons, <- app_assoc. cbn [app].
    destruct (entries_for cn es) as [|e' E]; [done|].
    apply take_app_take.
  - fold (entries_for cn es).
    assert (history_of (Db.addHistory cards c e) cn = history_of cards cn)
      as ->; [|done].
    unfold history_of. by rewrite DbFacts.getCard_addHistory_ne.
Qed.

(** * What no request undoes *)

Lemma prior_eq cards cards' cn :
  Db.getCard cards' cn = Db.getCard cards cn → prior cards' cn = prior cards cn.
Proof. unfold prior. by intros ->. Qed.

(** The store a handler leaves is the one it was given, or comes from it by
    calls of [saveCard]. *)
Lemma handlers_save dist (P : list Card → Prop) :
  (∀ cards card, P cards → P (Db.saveCard cards card)) →
  ∀ cards,
    P cards →
    (∀ req io, P (Server.check dist cards req io).1) ∧
    (∀ cn act io, P (Server.action cards cn act io).1).
Proof.
  intros Hsave cards HP. split.
  - intros req io.
    destruct (decide (Server.q_cardNumber req = "")) as [He|Hne].
    + unfold Server.check. by rewrite decide_True.
    + pose proof (check_eq dist cards req io Hne) as Heq. cbn zeta in Heq.
      rewrite Heq. cbn [fst]. by apply Hsave, Hsave.
  - intros cn act io. unfold Server.action.
    destruct (bool_decide (cn = "") || bool_decide (act = "")); [done|].
    destruct (Server.apply_action _ act) as [[c m]|]; [|done].
    cbn [fst]. by apply Hsave, Hsave.
Qed.

Lemma serve_save dist (P : list Card → Prop) :
  (∀ cards card, P cards → P (Db.saveCard cards card)) →
  ∀ rs cards, P cards → P (serve dist cards rs).
Proof.
  intros Hsave rs. induction rs as [|r rs IH]; intros cards HP; [done|].
  cbn. apply IH. destruct (handlers_save dist P Hsave cards HP) as [Hc Ha].
  destruct r; [apply Hc|apply Ha].
Qed.

(** From a collection in which no two records share a card number, every
    run of check and action requests leaves a collection in which no two
    records share a card number. *)
Theorem serve_unique_numbers dist cards rs :
  NoDup (cardNumbers cards) → NoDup (cardNumbers (serve dist cards rs)).
Proof.
  revert cards. apply (serve_save dist (λ c, NoDup (cardNumbers c))).
  intros cards card Hnd. rewrite cardNumbers_saveCard.
  case_decide as Hin; [by rewrite app_nil_r|].
  apply NoDup_app. split; [done|]. split; [|apply NoDup_singleton].
  intros x Hx ->%list_elem_of_singleton. done.
Qed.

Lemma serve_unique_numbers_witness :
  NoDup
    (cardNumbers
       (serve grid_distance []
          [CheckRequest Samples.at_origin Samples.io;
           ActionRequest "5500 0000 0000 0004" "report" Samples.aio;
           CheckRequest Samples.north_1h Samples.io])).
Proof. apply serve_unique_numbers. apply NoDup_nil_2. Defined.

(** No request removes or moves a record: after any run of check and action
    requests the card numbers of the collection are those it had, in their
    order, followed by the numbers of the cards the run made. *)
Theorem serve_keeps_records dist cards rs :
  cardNumbers cards `prefix_of` cardNumbers (serve dist cards rs).
Proof.
  apply (serve_save dist
           (λ c, cardNumbers cards `prefix_of` cardNumbers c)); [|done].
  intros cs card Hpre. rewrite cardNumbers_saveCard. by apply prefix_app_r.
Qed.

Lemma apply_action_status card act card' msg :
  Server.apply_action card act = Some (card', msg) →
  (status card' = status card ∨ status card' = frozen
   ∨ status card' = blocked) ∧
  (reported card' = reported card ∨ reported card' = true).
Proof.
  unfold Server.apply_action. repeat case_decide; naive_solver.
Qed.

Lemma prior_saveCard cards card :
  prior (Db.saveCard cards card) (cardNumber card) = card.
Proof. unfold prior. by rewrite DbFacts.getCard_saveCard. Qed.

Lemma prior_addHistory cards cn entry :
  status (prior (Db.addHistory cards cn entry) cn) = status (prior cards cn) ∧
  reported (prior (Db.addHistory cards cn entry) cn)
  = reported (prior cards cn).
Proof. unfold prior at 1 3. by rewrite DbFacts.getCard_addHistory. Qed.

Section StepFacts.

Variable dist : coord → coord → coord → coord → number.

Lemma check_status cards req io cn :
  let cards' := (Server.check dist cards req io).1 in
  status (prior cards' cn) = status (prior cards cn) ∧
  reported (prior cards' cn) = reported (prior cards cn) ∧
  (cn ≠ Server.q_cardNumber req →
   Db.getCard cards' cn = Db.getCard cards cn).
Proof.
  intros cards'. subst cards'.
  destruct (decide (Server.q_cardNumber req = "")) as [He|Hne].
  { unfold Server.check. by rewrite decide_True. }
  assert (Hother : cn ≠ Server.q_cardNumber req →
            Db.getCard (Server.check dist cards req io).1 cn
            = Db.getCard cards cn).
  { intros Hcn. pose proof (check_eq dist cards req io Hne) as Heq.
    cbn zeta in Heq. rewrite Heq. cbn [fst].
    rewrite DbFacts.getCard_updateLastSeen_ne by done.
    by rewrite DbFacts.getCard_addHistory_ne. }
  destruct (decide (cn = Server.q_cardNumber req)) as [->|Hcn].
  - pose proof (getCard_check dist cards req io Hne) as Hget.
    cbn zeta in Hget. unfold prior at 1 3. rewrite Hget. done.
  - by rewrite (prior_eq _ _ _ (Hother Hcn)).
Qed.

(** A check changes the status and the reported flag of no card, that of
    the request included, and the history and [lastSeen] of no card but that
    of the request. *)
Theorem check_keeps_status cards req io cn :
  let cards' := (Server.check dist cards req io).1 in
  status (prior cards' cn) = status (prior cards cn) ∧
  reported (prior cards' cn) = reported (prior cards cn) ∧
  (cn ≠ Server.q_cardNumber req →
   Db.getCard cards' cn = Db.getCard cards cn).
Proof. apply check_status. Qed.

(** What an action does to the status and the reported flag of a card. *)
Lemma action_status cards cn act io cn' :
  let cards' := (Server.action cards cn act io).1 in
  (status (prior cards' cn') = status (prior cards cn')
   ∨ status (prior cards' cn') = frozen
   ∨ status (prior cards' cn') = blocked) ∧
  (reported (prior cards' cn') = reported (prior cards cn')
   ∨ reported (prior cards' cn') = true).
Proof.
  intros cards'. subst cards'. unfold Server.action.
  destruct (bool_decide (cn = "") || bool_decide (act = "")); [by split; left|].
  fold (prior cards cn).
  destruct (Server.apply_action _ act) as [[c m]|] eqn:Happ;
    [|by split; left].
  cbn [fst].
  pose proof (apply_action_Some _ _ _ _ Happ) as [Hnum _].
  assert (Hc : cardNumber c = cn).
  { rewrite Hnum. apply DbFacts.cardNumber_default. }
  destruct (decide (cn' = cn)) as [->|Hne].
  - match goal with
    | |- context [Db.addHistory ?s cn ?e] =>
        destruct (prior_addHistory s cn e) as [-> ->]
    end.
    assert (prior (Db.saveCard cards c) cn = c) as ->.
    { rewrite <- Hc. apply prior_saveCard. }
    by apply apply_action_status in Happ.
  - rewrite (prior_eq cards).
    + by split; left.
    + rewrite DbFacts.getCard_addHistory_ne by done.
      apply DbFacts.getCard_saveCard_ne. by rewrite Hc.
Qed.

(** A card that is frozen or blocked is never active again: after any run
    of check and action requests its status is frozen or blocked. *)
Theorem serve_never_reactivates rs : ∀ cards cn,
  status (prior cards cn) ≠ active →
  status (prior (serve dist cards rs) cn) ≠ active.
Proof.
  induction rs as [|r rs IH]; intros cards cn Hst; [done|].
  cbn. apply IH. destruct r as [req io|cn0 act io].
  - destruct (check_status cards req io cn) as [-> _]. done.
  - destruct (action_status cards cn0 act io cn) as [[-> | [-> | ->]] _];
      done.
Qed.

(** A card that is reported stays reported after any run of check and
    action requests. *)
Theorem serve_reported_sticks rs : ∀ cards cn,
  reported (prior cards cn) = true →
  reported (prior (serve dist cards rs) cn) = true.
Proof.
  induction rs as [|r rs IH]; intros cards cn Hrep; [done|].
  cbn. apply IH. destruct r as [req io|cn0 act io].
  - destruct (check_status cards req io cn) as (_ & -> & _). done.
  - destruct (action_status cards cn0 act io cn) as [_ [-> | ->]]; done.
Qed.

End StepFacts.

Lemma serve_never_reactivates_witness :
  status
    (prior
       (serve grid_distance Samples.seen_blocked
          [ActionRequest Samples.pan "continue" Samples.aio;
           CheckRequest Samples.north_1h Samples.io;
           ActionRequest Samples.pan "report" Samples.aio])
       Samples.pan) ≠ active ∧
  status (prior Samples.seen_blocked Samples.pan) = blocked.
Proof.
  split; [|reflexivity]. apply serve_never_reactivates. discriminate.
Defined.

Lemma serve_reported_sticks_witness :
  reported
    (prior
       (serve grid_distance
          (Server.action Samples.seen Samples.pan "report" Samples.aio).1
          [ActionRequest Samples.pan "freeze" Samples.aio;
           CheckRequest Samples.north_1h Samples.io])
       Samples.pan) = true.
Proof.
  apply serve_reported_sticks. reflexivity.
Defined.

(** * How the handlers compose *)

Section ComposeFacts.

Variable dist : coord → coord → coord → coord → number.

Local Abbreviation check := (Server.check dist).

(** A check with both coordinates is compared with the check of the same
    card just before it, whatever that check answered and whatever
    coordinates it had: its details give the distance from the earlier
    check's coordinates and the hours since the earlier check's time, each
    as the program holds it and rounded to two decimals. *)
Theorem check_compares_with_previous cards req1 io1 req2 io2 lat lon :
  Server.q_cardNumber req1 ≠ "" →
  Server.q_cardNumber req2 = Server.q_cardNumber req1 →
  check_coords req2 io2 = (Some lat, Some lon) →
  let previous := check_location req1 io1 in
  ∃ view risk,
    (check (check cards req1 io1).1 req2 io2).2
    = Server.CheckOk view risk
        {| Server.distance_km :=
             Some (toFixed2
                     (dist (loc_lat previous) (loc_lon previous)
                        (Some lat) (Some lon)));
           Server.hours_since_last :=
             Some (toFixed2
                     (Server.diffHours64 (check_now req2 io2)
                        (loc_timestamp previous)));
           Server.note := None |}.
Proof.
  intros Hcn Hsame Hcoords previous.
  assert (Hcn2 : Server.q_cardNumber req2 ≠ "") by by rewrite Hsame.
  pose proof (check_eq dist (check cards req1 io1).1 req2 io2 Hcn2) as Heq.
  cbn zeta in Heq. rewrite Heq. cbn [snd]. clear Heq.
  rewrite Hcoords. cbn [fst snd]. rewrite Hsame.
  pose proof (getCard_check dist cards req1 io1 Hcn) as Hget.
  cbn zeta in Hget. rewrite (prior_Some _ _ _ Hget).
  erewrite compute_risk_comparable by reflexivity.
  cbn [snd]. by eexists _, _.
Qed.

(** After a block action on a card, the next check of the card answers
    BLOCKED; after a freeze action it answers FROZEN, also when the card was
    blocked before. *)
Theorem action_then_check cards req io aio :
  Server.q_cardNumber req ≠ "" →
  let cn := Server.q_cardNumber req in
  (∃ view details,
     (check (Server.action cards cn "block" aio).1 req io).2
     = Server.CheckOk view BLOCKED details) ∧
  (∃ view details,
     (check (Server.action cards cn "freeze" aio).1 req io).2
     = Server.CheckOk view FROZEN details).
Proof.
  intros Hcn cn.
  assert (Hst : ∀ act card' msg,
            act ≠ "" →
            Server.apply_action (prior cards cn) act = Some (card', msg) →
            status (prior (Server.action cards cn act aio).1 cn)
            = status card').
  { intros act card' msg Hact Happ.
    rewrite (action_eq cards cn act aio card' msg Hcn Hact Happ). cbn [fst].
    destruct (prior_addHistory (Db.saveCard cards card') cn
                (action_entry act aio)) as [-> _].
    apply apply_action_Some in Happ as [Hnum _].
    assert (cardNumber card' = cn) as <-; [|by rewrite prior_saveCard].
    rewrite Hnum. apply DbFacts.cardNumber_default. }
  split.
  - pose proof (check_eq dist (Server.action cards cn "block" aio).1 req io
                  Hcn) as Heq.
    cbn zeta in Heq. fold cn in Heq. rewrite Heq. cbn [snd].
    erewrite Hst by (done || reflexivity). by eexists _, _.
  - pose proof (check_eq dist (Server.action cards cn "freeze" aio).1 req io
                  Hcn) as Heq.
    cbn zeta in Heq. fold cn in Heq. rewrite Heq. cbn [snd].
    erewrite Hst by (done || reflexivity). by eexists _, _.
Qed.

(** With a card number a check succeeds, and what it answers is what it
    stored: the status, reported flag and [lastSeen] of the response are
    those of the stored card, and the newest history entry is a 'checked'
    entry with the risk of the response and the coordinates and time of the
    stored [lastSeen]. *)
Theorem check_response_matches_store cards req io :
  Server.q_cardNumber req ≠ "" →
  ∃ view risk details saved entry older loc,
    (check cards req io).2 = Server.CheckOk view risk details ∧
    Db.getCard (check cards req io).1 (Server.q_cardNumber req) = Some saved ∧
    Server.view_status view = status saved ∧
    Server.view_reported view = reported saved ∧
    Server.view_lastSeen view = lastSeen saved ∧
    lastSeen saved = Some loc ∧
    history saved = entry :: older ∧
    ev_action entry = "checked" ∧
    ev_risk entry = Some risk ∧
    ev_lat entry = Some (loc_lat loc) ∧
    ev_lon entry = Some (loc_lon loc) ∧
    ev_timestamp entry = loc_timestamp loc.
Proof.
  intros Hcn.
  pose proof (check_eq dist cards req io Hcn) as Heq.
  pose proof (getCard_check dist cards req io Hcn) as Hget.
  cbn zeta in Heq, Hget. rewrite Hget, Heq. cbn [snd].
  eexists _, _, _, _, _, _, _. split; [reflexivity|]. split; [reflexivity|].
  cbn [Server.view_status Server.view_reported Server.view_lastSeen status
       reported lastSeen history].
  split_and!; try reflexivity.
Qed.

(** At the level of the collection a handler answers an error exactly when
    the request is invalid (a check without a card number; an action
    without a card number, without an action or with an unknown one); the
    error is a 400 and the collection is left as it was. *)
Theorem errors_are_validation_errors cards req io cn act aio :
  match (check cards req io).2 with
  | Server.Error code _ =>
      code = 400%nat ∧ Server.q_cardNumber req = "" ∧
      (check cards req io).1 = cards
  | Server.CheckOk _ _ _ => Server.q_cardNumber req ≠ ""
  | Server.ActionOk _ _ => False
  end ∧
  match (Server.action cards cn act aio).2 with
  | Server.Error code _ =>
      code = 400%nat ∧ (cn = "" ∨ act = "" ∨ ¬ recognized act) ∧
      (Server.action cards cn act aio).1 = cards
  | Server.ActionOk _ _ => cn ≠ "" ∧ recognized act
  | Server.CheckOk _ _ _ => False
  end.
Proof.
  split.
  - destruct (decide (Server.q_cardNumber req = "")) as [He|Hne].
    + unfold Server.check. by rewrite decide_True.
    + pose proof (check_eq dist cards req io Hne) as Heq. cbn zeta in Heq.
      by rewrite Heq.
  - unfold Server.action.
    destruct (decide (cn = "")) as [->|Hcn].
    { rewrite bool_decide_eq_true_2 by done. cbn. auto. }
    destruct (decide (act = "")) as [->|Hact].
    { rewrite (bool_decide_eq_true_2 ("" = "")) by done.
      rewrite orb_true_r. cbn. auto. }
    rewrite (bool_decide_eq_false_2 _ Hcn), (bool_decide_eq_false_2 _ Hact).
    cbn [orb].
    destruct (Server.apply_action _ act) as [[c m]|] eqn:Happ; cbn.
    + split; [done|]. unfold Server.apply_action in Happ. unfold recognized.
      repeat case_decide; naive_solver.
    + split; [done|]. split; [|done]. right; right. intros Hrec.
      destruct (apply_action_recognized
                  (default (newCard cn) (Db.getCard cards cn)) act Hrec)
        as (? & ? & Hsome & _).
      congruence.
Qed.

End ComposeFacts.

Lemma check_compares_with_previous_witness :
  ∃ view risk,
    (Server.check grid_distance
       (Server.check grid_distance [] Samples.at_origin Samples.io).1
       Samples.north_1h Samples.io).2
    = Server.CheckOk view risk
        {| Server.distance_km :=
             Some (toFixed2
                     (grid_distance (Some (0 # 1)%Q) (Some (0 # 1)%Q)
                        (Some (10 # 1)%Q) (Some (0 # 1)%Q)));
           Server.hours_since_last :=
             Some (toFixed2
                     (Server.diffHours64 (Instant 3600000) (Instant 0)));
           Server.note := None |}.
Proof.
  exact (check_compares_with_previous grid_distance [] Samples.at_origin
           Samples.io Samples.north_1h Samples.io (10 # 1)%Q (0 # 1)%Q
           pan_not_empty eq_refl eq_refl).
Defined.

Lemma action_then_check_witness :
  ∃ view details,
    (Server.check grid_distance
       (Server.action Samples.seen_blocked Samples.pan "freeze"
          Samples.aio).1 Samples.north_1h Samples.io).2
    = Server.CheckOk view FROZEN details.
Proof.
  exact (proj2 (action_then_check grid_distance Samples.seen_blocked
                  Samples.north_1h Samples.io Samples.aio pan_not_empty)).
Defined.

Lemma check_response_matches_store_witness :
  ∃ view risk details saved,
    (Server.check grid_distance Samples.seen Samples.north_1h Samples.io).2
    = Server.CheckOk view risk details ∧
    Db.getCard
      (Server.check grid_distance Samples.seen Samples.north_1h
         Samples.io).1 Samples.pan = Some saved ∧
    Server.view_lastSeen view = lastSeen saved.
Proof.
  destruct (check_response_matches_store grid_distance Samples.seen
              Samples.north_1h Samples.io pan_not_empty)
    as (view & risk & details & saved & entry & older & loc
        & Hresp & Hget & _ & _ & Hls & _).
  exists view, risk, details, saved. split_and!; assumption.
Defined.

(** * Masks, coordinates and alerts *)

Lemma string_length_app (a b : string) :
  String.length (a ++ b) = (String.length a + String.length b)%nat.
Proof.
  induction a as [|c a IH]; [done|].
  change (S (String.length (a ++ b))
          = S (String.length a + String.length b)).
  by rewrite IH.
Qed.

Lemma substring_app_suffix (a t : string) :
  substring (String.length a) (String.length t) (a ++ t) = t.
Proof.
  induction a as [|c a IH]; [apply substring_all|].
  change (substring (String.length a) (String.length t) (a ++ t) = t).
  exact IH.
Qed.

(** A card number of more than four characters, blanks not counted, is
    shown as three groups of stars and its last four characters: two such
    numbers that end alike have the same mask, whatever comes before and
    however they are spaced. *)
Theorem mask_shows_last_four p1 p2 a b t :
  Server.strip_spaces p1 = a ++ t →
  Server.strip_spaces p2 = b ++ t →
  String.length t = 4%nat →
  a ≠ "" →
  b ≠ "" →
  Server.mask p1 = "**** **** **** " ++ t ∧ Server.mask p2 = Server.mask p1.
Proof.
  intros H1 H2 Ht Ha Hb.
  assert (Hmask : ∀ p c, Server.strip_spaces p = c ++ t → c ≠ "" →
                         Server.mask p = "**** **** **** " ++ t).
  { intros p c Hp Hc. unfold Server.mask.
    rewrite decide_False.
    2: { intros ->. destruct c; [done|discriminate Hp]. }
    rewrite Hp, string_length_app, Ht.
    destruct c as [|x c]; [done|]. cbn [String.length].
    replace (S (String.length c) + 4 <=? 4)%nat with false
      by (symmetry; apply Nat.leb_gt; lia).
    replace (S (String.length c) + 4 - 4)%nat
      with (String.length (String x c)) by (cbn; lia).
    rewrite <- Ht at 1. by rewrite substring_app_suffix. }
  rewrite (Hmask p1 a H1 Ha), (Hmask p2 b H2 Hb). done.
Qed.

Lemma mask_shows_last_four_witness :
  Server.mask "4111 1111 1111 1234" = "**** **** **** 1234" ∧
  Server.mask "55001234" = Server.mask "4111 1111 1111 1234".
Proof.
  exact (mask_shows_last_four "4111 1111 1111 1234" "55001234"
           "411111111111" "5500" "1234" eq_refl eq_refl eq_refl
           ltac:(discriminate) ltac:(discriminate)).
Defined.

(** The coordinates of a check are those of the body when the body has
    both; otherwise they are both those of ipapi.co, each present and not
    zero, or the body's as they are: a coordinate of the body is never
    paired with one of ipapi.co, and an answer of ipapi.co with a latitude
    or longitude of zero is not used. *)
Theorem resolve_coords_cases lat lon ipapi :
  let r := Server.resolve_coords lat lon ipapi in
  (is_Some lat → is_Some lon → r = (lat, lon)) ∧
  (r = (lat, lon) ∨
   ∃ d x y,
     ipapi = Some d ∧ (lat = None ∨ lon = None) ∧
     Server.latitude d = Some x ∧ Server.longitude d = Some y ∧
     ¬ (x == 0)%Q ∧ ¬ (y == 0)%Q ∧ r = (Some x, Some y)) ∧
  (∀ d, ipapi = Some d →
        Server.truthy (Server.latitude d) = false ∨
        Server.truthy (Server.longitude d) = false →
        r = (lat, lon)).
Proof.
  intros r. subst r. unfold Server.resolve_coords. split_and!.
  - by intros [x ->] [y ->].
  - destruct lat as [x|], lon as [y|]; [by left|..].
    all: destruct ipapi as [d|]; [|by left].
    all: destruct (Server.truthy (Server.latitude d)) eqn:Hlat; [|by left].
    all: destruct (Server.truthy (Server.longitude d)) eqn:Hlon; [|by left].
    all: right; unfold Server.truthy in Hlat, Hlon.
    all: destruct (Server.latitude d) as [u|] eqn:Hu; [|done].
    all: destruct (Server.longitude d) as [v|] eqn:Hv; [|done].
    all: exists d, u, v; split_and!; auto.
    all: intros Hz%Qeq_bool_iff; by rewrite Hz in *.
  - intros d -> Hfalsy. destruct lat, lon; [done|..].
    all: by destruct Hfalsy as [-> | ->]; rewrite ?andb_false_r.
Qed.

(** [sendAlertEmail] gives a message to SMTP only when the recipient, the
    SMTP host and the SMTP user are all set; the message then goes from the
    SMTP user to the recipient with the subject and text given, on a port
    that is a number other than zero, 587 when SMTP_PORT is unset, zero or
    not a number.  Otherwise it only writes a console note, and a failure of
    SMTP is not passed on to the caller. *)
Theorem sendAlertEmail_outcome env to subj txt smtp_ok :
  match App.sendAlertEmail env to subj txt smtp_ok with
  | App.Mailed t m sent =>
      to ≠ "" ∧ App.SMTP_HOST env ≠ "" ∧ App.SMTP_USER env ≠ "" ∧
      App.host t = App.SMTP_HOST env ∧
      App.msg_from m = App.SMTP_USER env ∧ App.msg_to m = to ∧
      App.msg_subject m = subj ∧ App.msg_text m = txt ∧
      sent = smtp_ok ∧
      (∃ q, App.port t = Num q ∧ ¬ (q == 0)%Q) ∧
      (App.SMTP_PORT env = NaN ∨
       (∃ q, App.SMTP_PORT env = Num q ∧ (q == 0)%Q) →
       App.port t = Num (587 # 1))
  | App.LoggedNoAdmin s x => to = "" ∧ s = subj ∧ x = txt
  | App.LoggedNoSmtp r s x =>
      to ≠ "" ∧ (App.SMTP_HOST env = "" ∨ App.SMTP_USER env = "") ∧
      r = to ∧ s = subj ∧ x = txt
  end.
Proof.
  unfold App.sendAlertEmail. case_decide as Hto; [done|].
  destruct (decide (App.SMTP_HOST env = "")) as [Hh|Hh].
  { rewrite bool_decide_eq_true_2 by done. cbn. auto. }
  destruct (decide (App.SMTP_USER env = "")) as [Hu|Hu].
  { rewrite (bool_decide_eq_true_2 (App.SMTP_USER env = "")) by done.
    rewrite orb_true_r. auto. }
  rewrite (bool_decide_eq_false_2 _ Hh), (bool_decide_eq_false_2 _ Hu).
  cbn [orb App.host App.port App.msg_from App.msg_to App.msg_subject
       App.msg_text].
  split_and!; try done.
  - unfold App.num_or. destruct (App.SMTP_PORT env) as [|q].
    + eexists. split; [reflexivity|]. by intros ?%Qeq_bool_iff.
    + destruct (Qeq_bool q 0) eqn:Hq.
      * eexists. split; [reflexivity|]. by intros ?%Qeq_bool_iff.
      * exists q. split; [done|]. intros Hz%Qeq_bool_iff. congruence.
  - intros [-> | (q & -> & Hq%Qeq_bool_iff)]; [done|].
    unfold App.num_or. by rewrite Hq.
Qed.

Lemma validation_touches_nothing_witness :
  App.action "" "block" Samples.aio 0
    {| App.disk := Disk.NoDir; App.outbox := [] |}
  = ({| App.disk := Disk.NoDir; App.outbox := [] |},
     Server.Error 400 "cardNumber and action required").
Proof.
  exact (proj2 (validation_touches_nothing grid_distance
                  {| App.disk := Disk.NoDir; App.outbox := [] |}
                  Samples.at_origin Samples.io "" "block" Samples.aio 0)
           (or_introl eq_refl)).
Defined.

(** * Edge cases of a check *)

Lemma diffHours_invalid now last :
  now = InvalidDate ∨ last = InvalidDate → Server.diffHours now last = NaN.
Proof. intros [-> | ->]; [done|]. by destruct now. Qed.

(** When the time of a check, or the time of the stored [lastSeen], is not
    a date that can be parsed, the hours between them are NaN and no
    threshold is met, whatever the distance: the check computes LOW (the
    status overrides apart) and reports NaN as [hours_since_last]. *)
Theorem check_unparseable_time_is_low dist cards req io ls lat lon :
  Server.q_cardNumber req ≠ "" →
  lastSeen (prior cards (Server.q_cardNumber req)) = Some ls →
  check_coords req io = (Some lat, Some lon) →
  check_now req io = InvalidDate ∨ loc_timestamp ls = InvalidDate →
  ∃ view details,
    (Server.check dist cards req io).2
    = Server.CheckOk view
        (match status (prior cards (Server.q_cardNumber req)) with
         | active => LOW
         | frozen => FROZEN
         | blocked => BLOCKED
         end) details ∧
    Server.hours_since_last details = Some NaN.
Proof.
  intros Hcn Hls Hcoords Hbad.
  pose proof (check_eq dist cards req io Hcn) as Heq. cbn zeta in Heq.
  rewrite Heq. cbn [snd]. clear Heq. rewrite Hcoords. cbn [fst snd].
  rewrite (compute_risk_comparable dist _ ls lat lon _ Hls).
  rewrite (diffHours_invalid _ _ Hbad), (diffHours64_invalid _ _ Hbad).
  cbn [fst snd num_lt toFixed2].
  rewrite !andb_false_r, status_overrides_eq. by eexists _, _.
Qed.

Lemma check_unparseable_time_is_low_witness :
  ∃ view details,
    (Server.check grid_distance Samples.seen
       {| Server.q_cardNumber := Samples.pan;
          Server.q_lat := Some (10 # 1)%Q; Server.q_lon := Some (0 # 1)%Q;
          Server.q_ts := Some InvalidDate |} Samples.io).2
    = Server.CheckOk view LOW details ∧
    Server.hours_since_last details = Some NaN.
Proof.
  exact (check_unparseable_time_is_low grid_distance Samples.seen
           {| Server.q_cardNumber := Samples.pan;
              Server.q_lat := Some (10 # 1)%Q; Server.q_lon := Some (0 # 1)%Q;
              Server.q_ts := Some InvalidDate |} Samples.io Samples.origin
           (10 # 1)%Q (0 # 1)%Q pan_not_empty eq_refl eq_refl
           (or_introl eq_refl)).
Defined.

Lemma cardNumbers_upsert cards c1 c2 :
  cardNumber c1 = cardNumber c2 →
  cardNumbers (Db.saveCard (Db.saveCard cards c1) c2)
  = cardNumbers (Db.saveCard cards c1).
Proof.
  intros Hnum. rewrite (cardNumbers_saveCard (Db.saveCard cards c1) c2).
  rewrite decide_True; [by rewrite app_nil_r|].
  rewrite <- Hnum, cardNumbers_saveCard. case_decide as Hin.
  - by rewrite app_nil_r.
  - apply elem_of_app. right. by apply list_elem_of_singleton.
Qed.

(** A check with a card number, and an action that is carried out, make a
    record for a card that has none, at the end of the collection, and make
    no record for a card that has one: the card numbers afterwards are those
    before, followed by the number of the request when it was missing. *)
Theorem handlers_upsert dist cards req io cn act aio :
  let added n :=
    (cardNumbers cards ++ if decide (n ∈ cardNumbers cards) then [] else [n])
    %list in
  (Server.q_cardNumber req ≠ "" →
   cardNumbers (Server.check dist cards req io).1
   = added (Server.q_cardNumber req)) ∧
  (cn ≠ "" → recognized act →
   cardNumbers (Server.action cards cn act aio).1 = added cn).
Proof.
  intros added. subst added. split.
  - intros Hcn. pose proof (check_eq dist cards req io Hcn) as Heq.
    cbn zeta in Heq. rewrite Heq. cbn [fst]. clear Heq.
    unfold Db.updateLastSeen. rewrite DbFacts.getCard_addHistory.
    cbn [default from_option id cardNumber lastSeen status reported history].
    unfold Db.addHistory.
    rewrite cardNumbers_upsert by apply DbFacts.cardNumber_default.
    rewrite cardNumbers_saveCard. cbn [cardNumber].
    by rewrite DbFacts.cardNumber_default.
  - intros Hcn Hrec.
    assert (Hact : act ≠ "") by (by destruct Hrec as [->|[->|[->| ->]]]).
    destruct (apply_action_recognized (prior cards cn) act Hrec)
      as (c1 & msg & Happ & Hnum & _).
    rewrite (action_eq cards cn act aio c1 msg Hcn Hact Happ). cbn [fst].
    assert (Hc1 : cardNumber c1 = cn).
    { rewrite Hnum. apply DbFacts.cardNumber_default. }
    unfold Db.addHistory.
    rewrite cardNumbers_upsert.
    + by rewrite cardNumbers_saveCard, Hc1.
    + cbn [cardNumber]. by rewrite DbFacts.cardNumber_default.
Qed.

Lemma handlers_upsert_witness :
  cardNumbers
    (Server.check grid_distance Samples.seen
       {| Server.q_cardNumber := "5500 0000 0000 0004";
          Server.q_lat := None; Server.q_lon := None;
          Server.q_ts := None |} Samples.io).1
  = [Samples.pan; "5500 0000 0000 0004"].
Proof.
  exact (proj1 (handlers_upsert grid_distance Samples.seen
                  {| Server.q_cardNumber := "5500 0000 0000 0004";
                     Server.q_lat := None; Server.q_lon := None;
                     Server.q_ts := None |} Samples.io
                  "5500 0000 0000 0004" "report" Samples.aio)
           ltac:(discriminate)).
Defined.

(** * Rounding and the thresholds *)

(** Rounding to doubles changes no threshold: the hours the program holds
    are below 6, and below 24, exactly when the exact hours between the two
    timestamps are. *)
Theorem rounding_keeps_thresholds now last :
  (below (Server.diffHours64 now last) (6 # 1)
   ↔ below (Server.diffHours now last) (6 # 1)) ∧
  (below (Server.diffHours64 now last) (24 # 1)
   ↔ below (Server.diffHours now last) (24 # 1)).
Proof.
  destruct (diffHours64_lt now last) as [H6 H24].
  rewrite <- !num_lt_below, H6, H24. done.
Qed.
